(** * Telegraph publishing for RSS-to-Telegram-Bot: src/parsing/tgraph.py

    A shallow embedding of the module: the [Telegraph] account wrapper
    (request spacing and flood gate), the [APIs] account pool (start-up
    validation and round-robin selection), the [TelegraphIfy] document
    (markup sanitizer, attribution footer) and its retrying publish
    method.

    Conventions.
    - Python [str] values are [string]s of ASCII characters.
    - Clock readings and durations are rationals, in seconds.
    - Everything outside the module (the Telegraph HTTP client, the lxml
      parser, the bs4 serializer) is a parameter: the service is an oracle
      that answers the n-th request, the parsed document is an input tree,
      the serializer is a section variable.
    - A coroutine is a function of the state; where the interleaving of
      coroutines matters (the two locks of an account) the calls are
      tasks that an event loop resumes one atomic segment at a time.
    - Logger output is not tracked. *)

From Stdlib Require Import ZArith QArith Qminmax Lqa Lia Ascii.
From stdpp Require Import base list strings.

Set Warnings "-register-all".

(** ** Python string helpers *)

Module PyStr.

(** [bool(s)] for an optional string argument: [None] and [''] are falsy. *)
Definition truthy (o : option string) : bool :=
  match o with
  | Some s => negb (String.eqb s "")
  | None => false
  end.

(** [s[:n]] *)
Definition take (n : nat) (s : string) : string := String.substring 0 n s.

(** [needle in hay] *)
Definition contains (needle hay : string) : bool :=
  match String.index 0 needle hay with
  | Some _ => true
  | None => false
  end.

(** [str.isspace] on one ASCII character: TAB, LF, VT, FF, CR, the four
    separators FS GS RS US, and the space. *)
Definition isspace (c : ascii) : bool :=
  let n := Ascii.nat_of_ascii c in
  ((9 <=? n) && (n <=? 13)) || ((28 <=? n) && (n <=? 32)).

Fixpoint lstrip (s : string) : string :=
  match s with
  | EmptyString => EmptyString
  | String c s' => if isspace c then lstrip s' else s
  end.

Fixpoint rstrip (s : string) : string :=
  match s with
  | EmptyString => EmptyString
  | String c s' =>
      match rstrip s' with
      | EmptyString => if isspace c then EmptyString else String c EmptyString
      | r => String c r
      end
  end.

(** [s.strip()] *)
Definition strip (s : string) : string := rstrip (lstrip s).

Fixpoint all_space (s : string) : bool :=
  match s with
  | EmptyString => true
  | String c s' => isspace c && all_space s'
  end.

(** [s.split(sep)] for a one-character separator. *)
Fixpoint split (sep : ascii) (s : string) : list string :=
  match s with
  | EmptyString => [EmptyString]
  | String c s' =>
      if Ascii.eqb c sep then EmptyString :: split sep s'
      else match split sep s' with
           | h :: t => String c h :: t
           | [] => [String c EmptyString]
           end
  end.

(** [l[-1]] of a list that [split] returned. *)
Definition last_item (l : list string) : string := List.last l EmptyString.

(** [s.startswith(p)] *)
Definition startswith (p s : string) : bool := String.prefix p s.

Definition digit (c : ascii) : option Z :=
  let n := Ascii.nat_of_ascii c in
  if (48 <=? n) && (n <=? 57) then Some (Z.of_nat (n - 48)) else None.

(** The whitespace that [int] accepts around the digits of an ASCII
    string: the space, TAB, LF, VT, FF and CR. The separators FS, GS, RS
    and US, which [str.strip] removes, are not among them. *)
Definition int_space (c : ascii) : bool :=
  let n := Ascii.nat_of_ascii c in
  ((9 <=? n) && (n <=? 13)) || (n =? 32).

Fixpoint skip_space (s : string) : string :=
  match s with
  | EmptyString => EmptyString
  | String c s' => if int_space c then skip_space s' else s
  end.

(** The rest of a decimal literal whose first digit has been read:
    digits, with single underscores between digits only. Returns the
    value, the number of digits and what follows the literal. *)
Fixpoint literal (acc : Z) (n : nat) (s : string) : option (Z * nat * string) :=
  match s with
  | EmptyString => Some (acc, n, s)
  | String c s' =>
      match digit c with
      | Some d => literal (10 * acc + d) (S n) s'
      | None =>
          if Ascii.eqb c "_" then
            match s' with
            | String c' s'' =>
                match digit c' with
                | Some d => literal (10 * acc + d) (S n) s''
                | None => None
                end
            | EmptyString => None
            end
          else Some (acc, n, s)
      end
  end.

(** The default of [sys.int_max_str_digits]. *)
Definition int_max_str_digits : nat := 4300.

Definition unsigned (s : string) : option Z :=
  match s with
  | EmptyString => None
  | String c s' =>
      match digit c with
      | None => None
      | Some d =>
          match literal d 1 s' with
          | None => None
          | Some (v, n, rest) =>
              match skip_space rest with
              | EmptyString => if int_max_str_digits <? n then None else Some v
              | String _ _ => None
              end
          end
      end
  end.

(** [int(s)] on ASCII input: whitespace, an optional sign, a decimal
    literal of at most [int_max_str_digits] digits, whitespace; [None]
    stands for [ValueError]. *)
Definition int (s : string) : option Z :=
  match skip_space s with
  | String "-"%char ds => Z.opp <$> unsigned ds
  | String "+"%char ds => unsigned ds
  | ds => unsigned ds
  end.

End PyStr.

(** ** The markup tree and the sanitizer

    A parsed document is a forest of nodes. Every [Tag] object carries its
    identity [tag_id]: bs4 locates a tag inside its parent by identity, and
    the sanitizer loop holds on to the tag objects that [find_all]
    returned while it rewrites the tree around them. *)

Inductive node : Type :=
| Text (s : string)
| Tag (tag_id : nat) (name : string) (attrs : list (string * string))
      (children : list node).

Definition soup := list node.

Definition TELEGRAPH_ALLOWED_TAGS : list string :=
  [ "a"; "aside"; "b"; "blockquote"; "br"; "code"; "em"; "figcaption"; "figure";
    "h3"; "h4"; "hr"; "i"; "iframe"; "img"; "li"; "ol"; "p"; "pre"; "s";
    "strong"; "u"; "ul"; "video" ].

Definition ALLOWED_ATTRS : list string := [ "href"; "src" ].

Definition mem (x : string) (l : list string) : bool :=
  existsb (String.eqb x) l.
Arguments mem : simpl never.

(** [soup.find_all(recursive=True)]: the tags of the document, in document
    order, collected into a list before the loop starts. *)
Fixpoint find_all_node (n : node) : list nat :=
  match n with
  | Text _ => []
  | Tag i _ _ ch => i :: flat_map find_all_node ch
  end.

Definition find_all (f : soup) : list nat := flat_map find_all_node f.

(** [del tag.attrs[attr]] for every key outside [ALLOWED_ATTRS]. *)
Definition strip_attrs (attrs : list (string * string)) : list (string * string) :=
  List.filter (fun kv => mem (fst kv) ALLOWED_ATTRS) attrs.

(** One iteration of the loop, for the tag object [i]: find it in the
    tree; when its name is not allowed, [replaceWithChildren] puts its
    children at its place in its parent; otherwise its attributes are
    filtered. All other nodes stay as they are. *)
Fixpoint visit_node (i : nat) (n : node) : list node :=
  match n with
  | Text s => [Text s]
  | Tag j nm attrs ch =>
      if Nat.eqb j i then
        if mem nm TELEGRAPH_ALLOWED_TAGS
        then [Tag j nm (strip_attrs attrs) ch]
        else ch
      else [Tag j nm attrs (flat_map (visit_node i) ch)]
  end.

Definition visit (f : soup) (i : nat) : soup := flat_map (visit_node i) f.

(** The whole loop [for tag in soup.find_all(recursive=True): ...]. *)
Definition sanitize_loop (f : soup) : soup := fold_left visit (find_all f) f.

(** The same transformation by recursive descent; the loop is shown to
    compute it. *)
Fixpoint sanitize_node (n : node) : list node :=
  match n with
  | Text s => [Text s]
  | Tag j nm attrs ch =>
      if mem nm TELEGRAPH_ALLOWED_TAGS
      then [Tag j nm (strip_attrs attrs) (flat_map sanitize_node ch)]
      else flat_map sanitize_node ch
  end.

Definition sanitize (f : soup) : soup := flat_map sanitize_node f.

(** Object identities are pairwise distinct. *)
Definition well_formed (f : soup) : Prop := NoDup (find_all f).

(** The spec's example [<div><script>x</script><b onclick=y>ok</b></div>],
    bare and as lxml hands it over (inside [html] and [body]). *)
Definition example_div : node :=
  Tag 2 "div" []
      [ Tag 3 "script" [] [Text "x"];
        Tag 4 "b" [("onclick", "y")] [Text "ok"] ].

Definition example_fragment : soup := [example_div].

Definition example_document : soup :=
  [Tag 0 "html" [] [Tag 1 "body" [] [example_div]]].

Definition example_expected : soup := [Tag 4 "b" [] [Text "ok"]].

(** ** Exceptions, results and the outside world *)

(** The exception classes the module tells apart. [TimeoutError] stands
    for an instance of [TimeoutError] or [asyncio.exceptions.TimeoutError];
    [NetworkError] for an instance of [aiohttp.ClientError] or
    [ConnectionError] that is not a timeout; [OtherError] for any other
    [Exception]. *)
Inductive exn : Type :=
| TelegraphError (msg : string)
| OverflowError
| TimeoutError
| NetworkError (cls : string)
| ValueError
| OtherError (cls : string).

Inductive result (A : Type) : Type :=
| Returned (a : A)
| Raised (e : exn).
Arguments Returned {A} a.
Arguments Raised {A} e.

(** What a coroutine that may wait for a lock, or recurse, comes to:
    [Blocked] when it suspends on a lock that is held, [OutOfFuel] when
    the recursion budget of the model is used up. *)
Inductive outcome (A : Type) : Type :=
| Done (r : result A)
| Blocked
| OutOfFuel.
Arguments Done {A} r.
Arguments Blocked {A}.
Arguments OutOfFuel {A}.

Inductive method : Type :=
| CreatePage (title content author_name author_url : string)
| CreateAccount (short_name author_name author_url : string)
| GetAccountInfo.

Record request : Type := { req_token : string; req_method : method }.

Inductive reply : Type :=
| Ok (payload : string)
| Fail (e : exn).

Inductive event : Type :=
| EvSleep (d : Q)
| EvRequest (start : Q) (r : request)
| EvReplaceSession (token : string).

(** The world: the service answers the n-th request it is sent with a
    reply and the time the call took; [clock] is what [time.time()]
    reads; [trace] records sleeps and transport calls in order. *)
Record World : Type := {
  service : nat -> request -> reply * Q;
  served : nat;
  clock : Q;
  trace : list event
}.

(** [await asyncio.sleep(d)]; a delay that is not positive returns at once. *)
Definition sleep (d : Q) (w : World) : World :=
  {| service := service w; served := served w;
     clock := clock w + Qmax d 0; trace := trace w ++ [EvSleep d] |}.

(** One transport call. *)
Definition send (r : request) (w : World) : reply * World :=
  let '(rep, took) := service w (served w) r in
  (rep, {| service := service w; served := S (served w);
           clock := clock w + took; trace := trace w ++ [EvRequest (clock w) r] |}).

(** ** class Telegraph *)

Record Telegraph : Type := {
  token : string;
  last_run : Q;
  _fc_lock : bool;
  _request_lock : bool
}.

Definition Telegraph_init (tok : string) : Telegraph :=
  {| token := tok; last_run := 0; _fc_lock := false; _request_lock := false |}.

Definition set_token (tok : string) (self : Telegraph) : Telegraph :=
  {| token := tok; last_run := last_run self;
     _fc_lock := _fc_lock self; _request_lock := _request_lock self |}.

Definition set_last_run (t : Q) (self : Telegraph) : Telegraph :=
  {| token := token self; last_run := t;
     _fc_lock := _fc_lock self; _request_lock := _request_lock self |}.

Definition replace_session (self : Telegraph) (w : World) : World :=
  {| service := service w; served := served w; clock := clock w;
     trace := trace w ++ [EvReplaceSession (token self)] |}.

Definition RSStT_account : method :=
  CreateAccount "RSStT" "Generated by RSStT"
                "https://github.com/Rongronggg9/RSS-to-Telegram-Bot".

(** Modelled from the spec: [create_account] of the client library
    aiograph, which is not part of this module. It asks the service for a
    new credential and, on success, stores it in the account (spec 4.2:
    issues a brand-new credential for this Account in place). *)
Definition create_account (self : Telegraph) (w : World)
  : result unit * Telegraph * World :=
  match send {| req_token := token self; req_method := RSStT_account |} w with
  | (Ok tok, w') => (Returned tt, set_token tok self, w')
  | (Fail e, w') => (Raised e, self, w')
  end.

(** Modelled from the spec: [get_account_info] of the client library,
    one request that confirms the credential or raises. *)
Definition get_account_info (self : Telegraph) (w : World) : result unit * World :=
  match send {| req_token := token self; req_method := GetAccountInfo |} w with
  | (Ok _, w') => (Returned tt, w')
  | (Fail e, w') => (Raised e, w')
  end.

(** The spacing sleep of [create_page]:
    [max(0.5 - (time.time() - self.last_run), 0)]. *)
Definition spacing (self : Telegraph) (w : World) : Q :=
  Qmax (0.5 - (clock w - last_run self)) 0.

(** [Telegraph.create_page]: pass the flood gate, take the request lock,
    sleep, call the transport, and record [last_run] when it returned. *)
Definition create_page (self : Telegraph) (page : method) (w : World)
  : outcome string * Telegraph * World :=
  if _fc_lock self then (Blocked, self, w)
  else if _request_lock self then (Blocked, self, w)
  else
    let w1 := sleep (spacing self w) w in
    match send {| req_token := token self; req_method := page |} w1 with
    | (Ok url, w2) => (Done (Returned url), set_last_run (clock w2) self, w2)
    | (Fail e, w2) => (Done (Raised e), self, w2)
    end.

(** [Telegraph.flood_wait]. The gate is closed for the duration of the
    body and open again when the call is over. *)
Definition flood_wait (self : Telegraph) (retry_after : Z) (w : World)
  : result unit * Telegraph * World :=
  if _fc_lock self then (Returned tt, self, w)
  else if (60 <=? retry_after)%Z then create_account self w
  else (Returned tt, self, sleep (inject_Z (retry_after + 1)) w).

(** ** class APIs *)

Record APIs : Type := {
  tokens : list string;
  _accounts : list Telegraph;
  _curr_id : Z
}.

(** The [try] block of [APIs.init] for one account. *)
Definition validate (tok : string) (account : Telegraph) (w : World)
  : result unit * Telegraph * World :=
  let '(r, account, w) :=
    if negb (Nat.eqb (String.length tok) 60)
    then create_account account w
    else (Returned tt, account, w) in
  match r with
  | Returned _ =>
      let '(r', w) := get_account_info account w in (r', account, w)
  | Raised e => (Raised e, account, w)
  end.

(** The body of the loop of [APIs.init] for one configured token. *)
Definition init_one (tok : string) (accounts : list Telegraph) (w : World)
  : list Telegraph * World :=
  let tok := PyStr.strip tok in
  let account := Telegraph_init tok in
  let w := replace_session account w in
  match validate tok account w with
  | (Returned _, account, w) => (accounts ++ [account], w)
  | (Raised (TelegraphError _), account, w) =>
      match create_account account w with
      | (Returned _, account, w) => (accounts ++ [account], w)
      | (Raised _, _, w) => (accounts, w)
      end
  | (Raised _, _, w) => (accounts, w)
  end.

Fixpoint init (toks : list string) (accounts : list Telegraph) (w : World)
  : list Telegraph * World :=
  match toks with
  | [] => (accounts, w)
  | tok :: rest =>
      let '(accounts, w) := init_one tok accounts w in
      init rest accounts w
  end.

Definition APIs_init (toks : list string) (w : World) : APIs * World :=
  let '(accounts, w) := init toks [] w in
  ({| tokens := toks; _accounts := accounts; _curr_id := 0 |}, w).

Definition valid (self : APIs) : bool :=
  match _accounts self with
  | [] => false
  | _ :: _ => true
  end.

Definition count (self : APIs) : nat := length (_accounts self).

Definition no_token : exn := TelegraphError "Telegraph token no set!".

(** [APIs.get_account]. The account objects are shared with the pool, so
    the call returns the position of the selected account in [_accounts]. *)
Definition get_account (self : APIs) : result nat * APIs :=
  match _accounts self with
  | [] => (Raised no_token, self)
  | _ :: _ =>
      let len := Z.of_nat (length (_accounts self)) in
      let curr_id :=
        if (0 <=? _curr_id self)%Z && (_curr_id self <? len)%Z
        then _curr_id self else 0%Z in
      let next :=
        if (0 <=? curr_id + 1)%Z && (curr_id + 1 <? len)%Z
        then (curr_id + 1)%Z else 0%Z in
      (Returned (Z.to_nat curr_id),
       {| tokens := tokens self; _accounts := _accounts self; _curr_id := next |})
  end.

(** The accounts that [m] successive calls of [get_account] return. *)
Fixpoint get_accounts (m : nat) (self : APIs) : list nat :=
  match m with
  | O => []
  | S m' =>
      match get_account self with
      | (Returned i, self') => i :: get_accounts m' self'
      | (Raised _, _) => []
      end
  end.

(** The module-level set-up of the global [apis]. *)
Definition bootstrap (TELEGRAPH_TOKEN : option string) (w : World)
  : option APIs * World :=
  match TELEGRAPH_TOKEN with
  | Some s =>
      if PyStr.truthy (Some s) then
        let '(pool, w) := APIs_init (PyStr.split "," s) w in
        if valid pool then (Some pool, w) else (None, w)
      else (None, w)
  | None => (None, w)
  end.

(** ** class TelegraphIfy *)

Record TelegraphIfy : Type := {
  retries : nat;
  telegraph_author : string;
  telegraph_author_url : string;
  telegraph_title : string;
  telegraph_html_content : string
}.

Definition footer : string :=
  "<br><br>Generated by " +:+
  "<a href='https://github.com/Rongronggg9/RSS-to-Telegram-Bot'>RSStT</a>. " +:+
  "The copyright belongs to the source site.<br>" +:+
  "If images cannot be loaded properly due to anti-hotlinking, " +:+
  "please consider install " +:+
  "<a href='https://greasyfork.org/scripts/432923'>this userscript</a>.".

Definition source_link (link : string) : string :=
  "<br><br><a href='" +:+ link +:+ "'>Source</a>".

(** The expression assigned to [telegraph_html_content]. A conditional
    expression binds weaker than [+], so the condition [if link] selects
    between the whole concatenation and the empty string. *)
Definition html_content (body : string) (link : option string) : string :=
  match link with
  | Some l =>
      if PyStr.truthy link then body +:+ footer +:+ source_link l else ""
  | None => ""
  end.

Definition or_default (o : option string) (d : string) : string :=
  match o with
  | Some s => if PyStr.truthy o then s else d
  | None => d
  end.

Section Constructor.

(** [str(soup)], the serializer of bs4. *)
Variable str_soup : soup -> string.

(** [TelegraphIfy.__init__], given the tree that
    [BeautifulSoup(xml, 'lxml')] built. *)
Definition TelegraphIfy_init (apis : option APIs) (xml : soup)
           (title link feed_title author : option string)
  : result TelegraphIfy :=
  match apis with
  | None => Raised no_token
  | Some _ =>
      let soup' := sanitize_loop xml in
      let '(t_author, t_author_url) :=
        match feed_title with
        | Some ft =>
            if PyStr.truthy feed_title then
              (match author with
               | Some au =>
                   if PyStr.truthy author && negb (PyStr.contains au ft)
                   then ft +:+ " (" +:+ au +:+ ")" else ft
               | None => ft
               end,
               or_default link "")
            else ("Generated by RSStT",
                  "https://github.com/Rongronggg9/RSS-to-Telegram-Bot")
        | None => ("Generated by RSStT",
                   "https://github.com/Rongronggg9/RSS-to-Telegram-Bot")
        end in
      Returned {| retries := 0;
                  telegraph_author := t_author;
                  telegraph_author_url := t_author_url;
                  telegraph_title := or_default title "Generated by RSStT";
                  telegraph_html_content := html_content (str_soup soup') link |}
  end.

End Constructor.

(** ** TelegraphIfy.telegraph_ify *)

(** The global [apis] and the world. *)
Record State : Type := { apis : option APIs; world : World }.

Definition put_account (i : nat) (account : Telegraph) (pool : APIs) : APIs :=
  {| tokens := tokens pool;
     _accounts := <[i := account]> (_accounts pool);
     _curr_id := _curr_id pool |}.

Definition bump (self : TelegraphIfy) : TelegraphIfy :=
  {| retries := S (retries self);
     telegraph_author := telegraph_author self;
     telegraph_author_url := telegraph_author_url self;
     telegraph_title := telegraph_title self;
     telegraph_html_content := telegraph_html_content self |}.

(** The arguments of the [create_page] call. *)
Definition page_of (self : TelegraphIfy) : method :=
  CreatePage (PyStr.take 256 (telegraph_title self))
             (telegraph_html_content self)
             (PyStr.take 128 (telegraph_author self))
             (PyStr.take 512 (telegraph_author_url self)).

(** [telegraph_account.flood_wait(retry_after)] on the account object at
    position [i] of the pool. *)
Definition flood_wait_at (i : nat) (retry_after : Z) (st : State)
  : result unit * State :=
  match apis st with
  | Some pool =>
      match _accounts pool !! i with
      | Some account =>
          let '(r, account, w) := flood_wait account retry_after (world st) in
          (r, {| apis := Some (put_account i account pool); world := w |})
      | None => (Returned tt, st)
      end
  | None => (Returned tt, st)
  end.

(** [telegraph_ify], with a budget [fuel] on the depth of the recursion.
    The two coroutines handed to [asyncio.gather] on a flood error are run
    one after the other, the recursive call first: their interleaving is
    not modelled here. So the order and the times of the requests and
    sleeps in the trace, and which exception leaves [gather] when both
    coroutines raise, are those of this one schedule; the value returned,
    [retries] and the [create_page] requests do not depend on it when
    [flood_wait] does not raise. How calls on one account interleave is
    the subject of the event-loop model of the two locks below. *)
Fixpoint telegraph_ify (fuel : nat) (self : TelegraphIfy) (st : State)
  : outcome string * TelegraphIfy * State :=
  match fuel with
  | O => (OutOfFuel, self, st)
  | S fuel' =>
      if 3 <=? retries self then (Done (Raised OverflowError), self, st)
      else
        match apis st with
        | None => (Done (Raised (OtherError "AttributeError")), self, st)
        | Some pool =>
            match get_account pool with
            | (Raised e, pool) =>
                (Done (Raised e), self, {| apis := Some pool; world := world st |})
            | (Returned i, pool) =>
                match _accounts pool !! i with
                | None =>
                    (Done (Raised (OtherError "IndexError")), self,
                     {| apis := Some pool; world := world st |})
                | Some telegraph_account =>
                    let '(o, telegraph_account, w) :=
                      create_page telegraph_account (page_of self) (world st) in
                    let st :=
                      {| apis := Some (put_account i telegraph_account pool);
                         world := w |} in
                    match o with
                    | Done (Returned url) => (Done (Returned url), self, st)
                    | Done (Raised (TelegraphError e_msg)) =>
                        if PyStr.startswith "FLOOD_WAIT_" e_msg then
                          match PyStr.int (PyStr.last_item (PyStr.split "_" e_msg)) with
                          | None => (Done (Raised ValueError), self, st)
                          | Some retry_after =>
                              let self := bump self in
                              match telegraph_ify fuel' self st with
                              | (Done r, self, st) =>
                                  let '(r', st) := flood_wait_at i retry_after st in
                                  match r, r' with
                                  | Returned url, Returned _ =>
                                      (Done (Returned url), self, st)
                                  | Returned _, Raised e => (Done (Raised e), self, st)
                                  | Raised e, _ => (Done (Raised e), self, st)
                                  end
                              | (o', self, st) => (o', self, st)
                              end
                          end
                        else (Done (Raised (TelegraphError e_msg)), self, st)
                    | Done (Raised TimeoutError) =>
                        (Done (Raised TimeoutError), self, st)
                    | Done (Raised (NetworkError cls)) =>
                        if retries self <? 3
                        then telegraph_ify fuel' self st
                        else (Done (Raised (NetworkError cls)), self, st)
                    | Done (Raised e) => (Done (Raised e), self, st)
                    | Blocked => (Blocked, self, st)
                    | OutOfFuel => (OutOfFuel, self, st)
                    end
                end
            end
        end
  end.

(** The [create_page] transport calls recorded in a trace, oldest first. *)
Definition is_create_page (ev : event) : bool :=
  match ev with
  | EvRequest _ {| req_method := CreatePage _ _ _ _ |} => true
  | _ => false
  end.

Definition attempts (w : World) : nat :=
  length (List.filter is_create_page (trace w)).

Fixpoint page_starts (tr : list event) : list Q :=
  match tr with
  | [] => []
  | EvRequest t {| req_method := CreatePage _ _ _ _ |} :: tr' => t :: page_starts tr'
  | _ :: tr' => page_starts tr'
  end.

Definition is_sleep (ev : event) : bool :=
  match ev with
  | EvSleep _ => true
  | _ => false
  end.

(** ** Concrete inputs used below *)

Definition tok60 : string :=
  "0123456789abcdef0123456789abcdef0123456789abcdef0123456789ab".

(** A service whose every call fails with a connection error after 0.1s. *)
Definition down_service : nat -> request -> reply * Q :=
  fun _ _ => (Fail (NetworkError "ClientConnectionError"), 0.1%Q).

(** A service that accepts every call after 0.1s. *)
Definition up_service : nat -> request -> reply * Q :=
  fun _ r =>
    match req_method r with
    | CreatePage _ _ _ _ => (Ok "https://telegra.ph/page", 0.1%Q)
    | CreateAccount _ _ _ => (Ok tok60, 0.1%Q)
    | GetAccountInfo => (Ok "RSStT", 0.1%Q)
    end.

Definition world_at (svc : nat -> request -> reply * Q) (t : Q) : World :=
  {| service := svc; served := 0; clock := t; trace := [] |}.

Definition one_account_pool : APIs :=
  {| tokens := [tok60]; _accounts := [Telegraph_init tok60]; _curr_id := 0 |}.

Definition sample_doc : TelegraphIfy :=
  {| retries := 0;
     telegraph_author := "Generated by RSStT";
     telegraph_author_url := "https://github.com/Rongronggg9/RSS-to-Telegram-Bot";
     telegraph_title := "Generated by RSStT";
     telegraph_html_content := "<b>ok</b>" |}.

Definition down_state : State :=
  {| apis := Some one_account_pool; world := world_at down_service 1000%Q |}.


(** What the loop makes of the spec's example: the text of the unwrapped
    [script] element stays in front of the [b] element. *)
Definition example_sanitized : soup := [Text "x"; Tag 4 "b" [] [Text "ok"]].

(** The rotation cursor that [get_account] works with: [_curr_id] when it
    is a valid index, 0 otherwise. *)
Definition cursor (self : APIs) : nat :=
  let len := Z.of_nat (length (_accounts self)) in
  Z.to_nat (if (0 <=? _curr_id self)%Z && (_curr_id self <? len)%Z
            then _curr_id self else 0%Z).

(** How often account [i] is among the accounts returned. *)
Definition times_returned (i : nat) (l : list nat) : nat :=
  count_occ Nat.eq_dec l i.

(** The distribution as the spec words it: over N+k calls every account
    is returned ceil(k/N) or floor(k/N) times. *)
Definition even_share_as_specified : Prop :=
  forall (self : APIs) (k i : nat),
    let N := length (_accounts self) in
    1 <= N -> i < N ->
    times_returned i (get_accounts (N + k) self) = (k + N - 1) / N
    \/ times_returned i (get_accounts (N + k) self) = k / N.

(** The cursor after one call, as a function on valid indices. *)
Definition advance (N c : nat) : nat := if S c <? N then S c else 0.

(** The indices [m] calls return when the cursor is [c]. *)
Fixpoint rotation (N m c : nat) : list nat :=
  match m with
  | O => []
  | S m' => c :: rotation N m' (advance N c)
  end.

(** The clock reading at which [create_page] hands its request to the
    transport: the reading at entry plus the spacing sleep. *)
Definition transport_start (self : Telegraph) (w : World) : Q :=
  clock (sleep (spacing self w) w).

Definition page_request (self : Telegraph) (page : method) : request :=
  {| req_token := token self; req_method := page |}.

(** The spacing as the spec words it: two successive [create_page] calls
    on one account never start their transport calls less than 0.5s
    apart. *)
Definition min_spacing_as_specified : Prop :=
  forall (self : Telegraph) (page : method) (w : World),
    _fc_lock self = false -> _request_lock self = false -> trace w = [] ->
    forall o1 self1 w1 o2 self2 w2 t1 t2,
      create_page self page w = (o1, self1, w1) ->
      create_page self1 page w1 = (o2, self2, w2) ->
      page_starts (trace w2) = [t1; t2] ->
      (t1 + 0.5 <= t2)%Q.

Definition sample_page : method := page_of sample_doc.

Definition create_account_request (self : Telegraph) : request :=
  {| req_token := token self; req_method := RSStT_account |}.

(** An account whose flood gate another caller holds closed. *)
Definition gated_account : Telegraph :=
  {| token := tok60; last_run := 0; _fc_lock := true; _request_lock := false |}.

Definition empty_pool : APIs :=
  {| tokens := []; _accounts := []; _curr_id := 0 |}.

(** Two configured strings that denote the same credential. *)
Definition same_credential (a b : string) : Prop :=
  PyStr.strip a = PyStr.strip b.

(** A string that neither starts nor ends with a whitespace character
    (tested on the characters themselves). *)
Definition starts_bare (s : string) : bool :=
  match s with
  | EmptyString => true
  | String c _ => negb (PyStr.isspace c)
  end.

Fixpoint ends_bare (s : string) : bool :=
  match s with
  | EmptyString => true
  | String c EmptyString => negb (PyStr.isspace c)
  | String _ s' => ends_bare s'
  end.

Definition bare (s : string) : bool := starts_bare s && ends_bare s.

(** The first transport request for a configured token: account info for a
    token of length 60, a new account otherwise. *)
Definition first_request (tok : string) : request :=
  {| req_token := tok;
     req_method := if Nat.eqb (String.length tok) 60
                   then GetAccountInfo else RSStT_account |}.

(** ** Observations on documents *)

(** The tags of a document in document order, each with its name and its
    attributes. *)
Fixpoint tags_node (n : node) : list (string * list (string * string)) :=
  match n with
  | Text _ => []
  | Tag _ nm attrs ch => (nm, attrs) :: flat_map tags_node ch
  end.

Definition tags (f : soup) : list (string * list (string * string)) :=
  flat_map tags_node f.

(** The strings of a document in document order. *)
Fixpoint texts_node (n : node) : list string :=
  match n with
  | Text s => [s]
  | Tag _ _ _ ch => flat_map texts_node ch
  end.

Definition texts (f : soup) : list string := flat_map texts_node f.

Definition allowed_tag (t : string * list (string * string)) : bool :=
  mem (fst t) TELEGRAPH_ALLOWED_TAGS.

Definition allowed_attr (kv : string * string) : bool :=
  mem (fst kv) ALLOWED_ATTRS.

Definition keep_allowed_attrs (t : string * list (string * string))
  : string * list (string * string) :=
  (fst t, strip_attrs (snd t)).

(** A tag the loop has nothing to do on, and a document of such tags. *)
Definition clean_tag (t : string * list (string * string)) : bool :=
  allowed_tag t && forallb allowed_attr (snd t).

Definition clean (f : soup) : bool := forallb clean_tag (tags f).

(** ** Observations on accounts and pools *)

(** An account as [Telegraph.__init__] leaves it, whatever its credential. *)
Definition fresh (a : Telegraph) : Prop :=
  last_run a = 0%Q /\ _fc_lock a = false /\ _request_lock a = false.

(** An account that a [create_page] can use at once. *)
Definition unlocked (a : Telegraph) : Prop :=
  _fc_lock a = false /\ _request_lock a = false.

Definition account_info_request (tok : string) : request :=
  {| req_token := tok; req_method := GetAccountInfo |}.

Definition new_account_request (tok : string) : request :=
  {| req_token := tok; req_method := RSStT_account |}.

Definition is_telegraph_error (e : exn) : bool :=
  match e with
  | TelegraphError _ => true
  | _ => false
  end.

(** ** One round of [telegraph_ify]

    The body of [telegraph_ify] up to its recursive calls, used to reason
    about the recursion: a round either ends the call, or asks for a plain
    retry (network error), or asks for a retry followed by [flood_wait] on
    account [i] (flood error). *)
Inductive round : Type :=
| Finished (o : outcome string) (st : State)
| RetryNetwork (st : State)
| RetryFlood (i : nat) (retry_after : Z) (st : State).

Definition attempt (self : TelegraphIfy) (st : State) : round :=
  if 3 <=? retries self then Finished (Done (Raised OverflowError)) st
  else
    match apis st with
    | None => Finished (Done (Raised (OtherError "AttributeError"))) st
    | Some pool =>
        match get_account pool with
        | (Raised e, pool) =>
            Finished (Done (Raised e)) {| apis := Some pool; world := world st |}
        | (Returned i, pool) =>
            match _accounts pool !! i with
            | None =>
                Finished (Done (Raised (OtherError "IndexError")))
                         {| apis := Some pool; world := world st |}
            | Some telegraph_account =>
                let '(o, telegraph_account, w) :=
                  create_page telegraph_account (page_of self) (world st) in
                let st :=
                  {| apis := Some (put_account i telegraph_account pool);
                     world := w |} in
                match o with
                | Done (Returned url) => Finished (Done (Returned url)) st
                | Done (Raised (TelegraphError e_msg)) =>
                    if PyStr.startswith "FLOOD_WAIT_" e_msg then
                      match PyStr.int (PyStr.last_item (PyStr.split "_" e_msg)) with
                      | None => Finished (Done (Raised ValueError)) st
                      | Some retry_after => RetryFlood i retry_after st
                      end
                    else Finished (Done (Raised (TelegraphError e_msg))) st
                | Done (Raised TimeoutError) =>
                    Finished (Done (Raised TimeoutError)) st
                | Done (Raised (NetworkError cls)) =>
                    if retries self <? 3
                    then RetryNetwork st
                    else Finished (Done (Raised (NetworkError cls))) st
                | Done (Raised e) => Finished (Done (Raised e)) st
                | Blocked => Finished Blocked st
                | OutOfFuel => Finished OutOfFuel st
                end
            end
        end
    end.

(** What [asyncio.gather] hands back for the recursive call and the
    [flood_wait] that ran after it. *)
Definition gathered (i : nat) (retry_after : Z)
           (res : outcome string * TelegraphIfy * State)
  : outcome string * TelegraphIfy * State :=
  match res with
  | (Done r, self, st) =>
      let '(r', st) := flood_wait_at i retry_after st in
      match r, r' with
      | Returned url, Returned _ => (Done (Returned url), self, st)
      | Returned _, Raised e => (Done (Raised e), self, st)
      | Raised e, _ => (Done (Raised e), self, st)
      end
  | (o', self, st) => (o', self, st)
  end.

(** Errors of the transport that end [telegraph_ify] at once: everything
    but a flood error and a network error. *)
Definition terminal (e : exn) : bool :=
  match e with
  | TelegraphError msg => negb (PyStr.startswith "FLOOD_WAIT_" msg)
  | NetworkError _ => false
  | _ => true
  end.

(** A flood error with a readable number of seconds. *)
Definition flood_error (e : exn) : bool :=
  match e with
  | TelegraphError msg =>
      PyStr.startswith "FLOOD_WAIT_" msg
      && match PyStr.int (PyStr.last_item (PyStr.split "_" msg)) with
         | Some _ => true
         | None => false
         end
  | _ => false
  end.

(** The credentials that the [create_page] requests of a trace carry. *)
Fixpoint page_tokens (tr : list event) : list string :=
  match tr with
  | [] => []
  | EvRequest _ {| req_token := tok; req_method := CreatePage _ _ _ _ |} :: tr' =>
      tok :: page_tokens tr'
  | _ :: tr' => page_tokens tr'
  end.

(** The pages that the [create_page] requests of a trace carry. *)
Fixpoint pages (tr : list event) : list method :=
  match tr with
  | [] => []
  | EvRequest _ {| req_method := CreatePage t c a u |} :: tr' =>
      CreatePage t c a u :: pages tr'
  | _ :: tr' => pages tr'
  end.

(** The pool after [n] calls of [get_account]. *)
Fixpoint rotate (n : nat) (pool : APIs) : APIs :=
  match n with
  | O => pool
  | S n' => rotate n' (get_account pool).2
  end.

Definition set_retries (n : nat) (self : TelegraphIfy) : TelegraphIfy :=
  {| retries := n;
     telegraph_author := telegraph_author self;
     telegraph_author_url := telegraph_author_url self;
     telegraph_title := telegraph_title self;
     telegraph_html_content := telegraph_html_content self |}.

(** A service that answers every [create_page] with a five-second flood
    error and accepts everything else. *)
Definition flooding_service : nat -> request -> reply * Q :=
  fun _ r =>
    match req_method r with
    | CreatePage _ _ _ _ => (Fail (TelegraphError "FLOOD_WAIT_5"), 0.1%Q)
    | _ => (Ok tok60, 0.1%Q)
    end.

(** A service whose every call times out after ten seconds. *)
Definition timeout_service : nat -> request -> reply * Q :=
  fun _ _ => (Fail TimeoutError, 10%Q).

Definition two_account_pool : APIs :=
  {| tokens := ["first"; "second"];
     _accounts := [Telegraph_init "first"; Telegraph_init "second"];
     _curr_id := 0 |}.

(** The pool after one [get_account], and the world after one transport
    call of [create_page] on account [a]. *)
Definition next_pool (pool : APIs) : APIs := (get_account pool).2.

Definition attempt_world (a : Telegraph) (page : method) (w : World) : World :=
  (send (page_request a page) (sleep (spacing a w) w)).2.

(** The credential of the account at position [i]. *)
Definition token_at (pool : APIs) (i : nat) : string :=
  from_option token "" (_accounts pool !! i).

(** A pool that [telegraph_ify] can use: not empty, no lock held. *)
Definition usable (pool : APIs) : Prop :=
  _accounts pool <> [] /\ Forall unlocked (_accounts pool).

(** The state a round leaves behind. *)
Definition round_state (r : round) : State :=
  match r with
  | Finished _ st => st
  | RetryNetwork st => st
  | RetryFlood _ _ st => st
  end.

Definition is_page_request (r : request) : bool :=
  match req_method r with
  | CreatePage _ _ _ _ => true
  | _ => false
  end.

(** A service that answers every [create_page] with a flood error and
    accepts every other request, so that a [flood_wait] that creates a new
    account does not fail. *)
Definition flooding (svc : nat -> request -> reply * Q) : Prop :=
  (forall n r, is_page_request r = true ->
               exists e took, svc n r = (Fail e, took) /\ flood_error e = true)
  /\ (forall n r, is_page_request r = false ->
                  exists payload took, svc n r = (Ok payload, took)).

(** A service that answers every [create_page] with a network error. *)
Definition unreachable (svc : nat -> request -> reply * Q) : Prop :=
  forall n r, is_page_request r = true ->
              exists cls took, svc n r = (Fail (NetworkError cls), took).

(** A service that accepts every request. *)
Definition accepting (svc : nat -> request -> reply * Q) : Prop :=
  forall n r, exists payload took, svc n r = (Ok payload, took).

(** A service whose first [create_page] is answered with a five-second
    flood error and that accepts everything after it. *)
Definition flood_once_service : nat -> request -> reply * Q :=
  fun n r =>
    match n with
    | O => (Fail (TelegraphError "FLOOD_WAIT_5"), 0.1%Q)
    | S _ => up_service n r
    end.


(** What [init] promises for one configured credential when the service
    accepts every request: the account is as the constructor left it, and
    a credential of 60 characters is kept as it was configured. *)
Definition set_up_for (tok : string) (a : Telegraph) : Prop :=
  fresh a
  /\ (String.length (PyStr.strip tok) = 60 -> token a = PyStr.strip tok).

(** ** The two locks of an account under asyncio

    [create_page] and [flood_wait] are coroutines: between two [await]s a
    coroutine runs without interruption, and at an [await] that has to
    wait (a held lock, a timer, a reply) any other coroutine may run.
    The calls on one account are modelled as tasks that are resumed one
    atomic segment at a time, in any order, while time passes in between.

    Taking a free [asyncio.Lock] does not suspend the caller, so an
    uncontended [create_page] passes the gate, takes the request lock and
    starts its sleep in one segment. The model resumes a task once per
    lock operation instead: it allows every schedule of the event loop,
    and some more. *)

Definition set_fc_lock (b : bool) (self : Telegraph) : Telegraph :=
  {| token := token self; last_run := last_run self;
     _fc_lock := b; _request_lock := _request_lock self |}.

Definition set_request_lock (b : bool) (self : Telegraph) : Telegraph :=
  {| token := token self; last_run := last_run self;
     _fc_lock := _fc_lock self; _request_lock := b |}.

(** Where a call on the account stands. *)
Inductive task : Type :=
| AtGate (page : method)
  (** [create_page]: before [async with self._fc_lock: pass] *)
| AtLock (page : method)
  (** before [async with self._request_lock] *)
| Sleeping (page : method) (wake : Q)
  (** in [await asyncio.sleep(...)], holding the request lock *)
| InFlight (rep : reply) (fin : Q)
  (** in [await super().create_page(...)], holding the request lock *)
| PageDone (r : result string)
| AtCheck (retry_after : Z)
  (** [flood_wait]: before [if not self._fc_lock.locked()] *)
| AtAcquire (retry_after : Z)
  (** before [async with self._fc_lock] *)
| Creating (rep : reply) (fin : Q)
  (** in [await self.create_account(...)], holding the gate *)
| Cooling (wake : Q)
  (** in [await asyncio.sleep(retry_after + 1)], holding the gate *)
| WaitDone (r : result unit).

(** What an observer of the account notes down, with the clock reading:
    a [create_page] passing the gate, its transport call beginning and
    ending (successfully or not), a [flood_wait] closing the gate (with
    its [retry_after]) and opening it again. The number is the task. *)
Inductive mark : Type :=
| Passed (i : nat) (t : Q)
| Began (i : nat) (t : Q)
| Ended (i : nat) (t : Q) (ok : bool)
| Closed (i : nat) (t : Q) (retry_after : Z)
| Opened (i : nat) (t : Q).

Record System : Type := {
  account : Telegraph;
  env : World;
  tasks : list task;
  log : list mark
}.

(** Time passes. *)
Definition tick (d : Q) (w : World) : World :=
  {| service := service w; served := served w;
     clock := clock w + d; trace := trace w |}.

(** A transport call is handed to the service: the reply and the reading
    at which it will be there. *)
Definition begin_call (r : request) (w : World) : reply * Q * World :=
  let '(rep, took) := service w (served w) r in
  (rep, (clock w + took)%Q,
   {| service := service w; served := S (served w);
      clock := clock w; trace := trace w ++ [EvRequest (clock w) r] |}).

(** [asyncio.sleep(d)] is entered: the reading at which it is over. *)
Definition begin_sleep (d : Q) (w : World) : Q * World :=
  ((clock w + Qmax d 0)%Q,
   {| service := service w; served := served w;
      clock := clock w; trace := trace w ++ [EvSleep d] |}).

(** The next atomic segment of task [i]; [None] when the task has to wait
    (for a lock, its timer or its reply) or is over. *)
Definition resume (i : nat) (t : task) (self : Telegraph) (w : World)
  : option (task * Telegraph * World * list mark) :=
  match t with
  | AtGate page =>
      if _fc_lock self then None
      else Some (AtLock page, self, w, [Passed i (clock w)])
  | AtLock page =>
      if _request_lock self then None
      else
        let '(wake, w') := begin_sleep (spacing self w) w in
        Some (Sleeping page wake, set_request_lock true self, w', [])
  | Sleeping page wake =>
      if Qle_bool wake (clock w) then
        let '(rep, fin, w') :=
          begin_call {| req_token := token self; req_method := page |} w in
        Some (InFlight rep fin, self, w', [Began i (clock w)])
      else None
  | InFlight rep fin =>
      if Qle_bool fin (clock w) then
        match rep with
        | Ok url =>
            Some (PageDone (Returned url),
                  set_request_lock false (set_last_run (clock w) self), w,
                  [Ended i (clock w) true])
        | Fail e =>
            Some (PageDone (Raised e), set_request_lock false self, w,
                  [Ended i (clock w) false])
        end
      else None
  | PageDone _ => None
  | AtCheck retry_after =>
      if _fc_lock self then Some (WaitDone (Returned tt), self, w, [])
      else Some (AtAcquire retry_after, self, w, [])
  | AtAcquire retry_after =>
      if _fc_lock self then None
      else if (60 <=? retry_after)%Z then
        let '(rep, fin, w') :=
          begin_call {| req_token := token self; req_method := RSStT_account |} w in
        Some (Creating rep fin, set_fc_lock true self, w',
              [Closed i (clock w) retry_after])
      else
        let '(wake, w') := begin_sleep (inject_Z (retry_after + 1)) w in
        Some (Cooling wake, set_fc_lock true self, w',
              [Closed i (clock w) retry_after])
  | Creating rep fin =>
      if Qle_bool fin (clock w) then
        match rep with
        | Ok tok =>
            Some (WaitDone (Returned tt), set_fc_lock false (set_token tok self),
                  w, [Opened i (clock w)])
        | Fail e =>
            Some (WaitDone (Raised e), set_fc_lock false self, w,
                  [Opened i (clock w)])
        end
      else None
  | Cooling wake =>
      if Qle_bool wake (clock w)
      then Some (WaitDone (Returned tt), set_fc_lock false self, w,
                 [Opened i (clock w)])
      else None
  | WaitDone _ => None
  end.

(** The event loop: time passes, or some task is resumed. *)
Inductive step : System -> System -> Prop :=
| step_tick s d :
    (0 <= d)%Q ->
    step s {| account := account s; env := tick d (env s);
              tasks := tasks s; log := log s |}
| step_task s i t t' self' w' ms :
    tasks s !! i = Some t ->
    resume i t (account s) (env s) = Some (t', self', w', ms) ->
    step s {| account := self'; env := w';
              tasks := <[i := t']> (tasks s); log := log s ++ ms |}.

(** Any number of steps of the event loop. *)
Inductive steps : System -> System -> Prop :=
| steps_refl s : steps s s
| steps_next s s' s'' : steps s s' -> step s' s'' -> steps s s''.

(** A call that has not begun. *)
Definition pending (t : task) : bool :=
  match t with
  | AtGate _ | AtCheck _ => true
  | _ => false
  end.

(** The calls [calls] are made on the account [self]; none has begun. *)
Definition start (self : Telegraph) (w : World) (calls : list task) : System :=
  {| account := self; env := w; tasks := calls; log := [] |}.

(** Tasks that hold the request lock, and tasks that hold the gate. *)
Definition holds_request (t : task) : bool :=
  match t with
  | Sleeping _ _ | InFlight _ _ => true
  | _ => false
  end.

Definition holds_gate (t : task) : bool :=
  match t with
  | Creating _ _ | Cooling _ => true
  | _ => false
  end.

Definition in_flight (t : task) : bool :=
  match t with
  | InFlight _ _ => true
  | _ => false
  end.

Definition number (f : task -> bool) (l : list task) : nat :=
  length (List.filter f l).

(** What the log of [create_page] calls must look like. The observer
    remembers the call in flight, if any, with the reading at which it
    began, and the reading at which the last successful call ended. A
    call may begin only when none is in flight and the last successful
    one ended at least 0.5s ago; a call ends after it began. *)
Record page_watch : Type := {
  calling : option (nat * Q);
  last_ok : option Q
}.

Definition watch_page (pw : page_watch) (m : mark) : option page_watch :=
  match m with
  | Began i t =>
      match calling pw with
      | Some _ => None
      | None =>
          if match last_ok pw with
             | Some u => Qle_bool (u + 0.5)%Q t
             | None => true
             end
          then Some {| calling := Some (i, t); last_ok := last_ok pw |}
          else None
      end
  | Ended i t ok =>
      match calling pw with
      | Some (j, t0) =>
          if Nat.eqb i j && Qle_bool t0 t
          then Some {| calling := None;
                       last_ok := if ok then Some t else last_ok pw |}
          else None
      | None => None
      end
  | _ => Some pw
  end.

(** What the log of the gate must look like. The observer remembers who
    closed the gate, when and for which [retry_after]. Nobody passes or
    closes the gate while it is closed; it is opened by the task that
    closed it, and after a [retry_after] below 60 not before
    [retry_after + 1] seconds are over. *)
Definition watch_gate (gw : option (nat * Q * Z)) (m : mark)
  : option (option (nat * Q * Z)) :=
  match m with
  | Passed _ _ =>
      match gw with
      | Some _ => None
      | None => Some None
      end
  | Closed i t retry_after =>
      match gw with
      | Some _ => None
      | None => Some (Some (i, t, retry_after))
      end
  | Opened i t =>
      match gw with
      | Some (j, t0, retry_after) =>
          if Nat.eqb i j
             && ((60 <=? retry_after)%Z
                 || Qle_bool (t0 + inject_Z (retry_after + 1))%Q t)
          then Some None
          else None
      | None => None
      end
  | _ => Some gw
  end.

Fixpoint observe {A : Type} (f : A -> mark -> option A) (a : A) (l : list mark)
  : option A :=
  match l with
  | [] => Some a
  | m :: l' =>
      match f a m with
      | Some a' => observe f a' l'
      | None => None
      end
  end.

Definition spaced (l : list mark) : bool :=
  match observe watch_page {| calling := None; last_ok := None |} l with
  | Some _ => true
  | None => false
  end.

Definition gated (l : list mark) : bool :=
  match observe watch_gate None l with
  | Some _ => true
  | None => false
  end.

(** What every state of the system satisfies: who holds a lock is
    counted by the lock, a sleeping [create_page] wakes not before
    [last_run + 0.5], and the observers of the log agree with the tasks. *)
Definition page_state (s : System) (pw : page_watch) : Prop :=
  match calling pw with
  | Some (i, t0) =>
      (exists rep fin, tasks s !! i = Some (InFlight rep fin))
      /\ (t0 <= clock (env s))%Q
  | None => number in_flight (tasks s) = 0
  end
  /\ (forall u, last_ok pw = Some u -> last_run (account s) = u).

Definition gate_state (s : System) (gw : option (nat * Q * Z)) : Prop :=
  match gw with
  | Some (i, t0, retry_after) =>
      _fc_lock (account s) = true
      /\ ((exists rep fin,
              tasks s !! i = Some (Creating rep fin) /\ (60 <= retry_after)%Z)
          \/ (exists wake,
                 tasks s !! i = Some (Cooling wake)
                 /\ (t0 + inject_Z (retry_after + 1) <= wake)%Q))
  | None => _fc_lock (account s) = false
  end.

Definition consistent (s : System) : Prop :=
  number holds_request (tasks s) = Nat.b2n (_request_lock (account s))
  /\ number holds_gate (tasks s) = Nat.b2n (_fc_lock (account s))
  /\ (forall i page wake,
        tasks s !! i = Some (Sleeping page wake) ->
        (last_run (account s) + 0.5 <= wake)%Q)
  /\ (exists pw,
        observe watch_page {| calling := None; last_ok := None |} (log s)
        = Some pw
        /\ page_state s pw)
  /\ (exists gw,
        observe watch_gate None (log s) = Some gw /\ gate_state s gw).

(** An account whose last transport call returned 0.2s before the
    reading 1000. *)
Definition recent_account : Telegraph :=
  {| token := tok60; last_run := 999.8; _fc_lock := false;
     _request_lock := false |}.


(** A schedule of the event loop, and the state it leads to; [None] when
    a move is not possible (a negative wait, no such task, or a task that
    has to wait or is over). *)
Inductive move : Type :=
| Wait (d : Q)
| Resume (i : nat).

Definition make (m : move) (s : System) : option System :=
  match m with
  | Wait d =>
      if Qle_bool 0 d
      then Some {| account := account s; env := tick d (env s);
                   tasks := tasks s; log := log s |}
      else None
  | Resume i =>
      match tasks s !! i with
      | Some t =>
          match resume i t (account s) (env s) with
          | Some (t', self', w', ms) =>
              Some {| account := self'; env := w';
                      tasks := <[i := t']> (tasks s); log := log s ++ ms |}
          | None => None
          end
      | None => None
      end
  end.

Fixpoint play (ms : list move) (s : System) : option System :=
  match ms with
  | [] => Some s
  | m :: ms' =>
      match make m s with
      | Some s' => play ms' s'
      | None => None
      end
  end.

(** Two [create_page] calls on [recent_account] at the reading 1000: the
    first takes the lock and sleeps 0.3s, the second passes the gate and
    has to wait for the lock; the first call begins at 1000.3 and returns
    at 1000.4; then the second takes the lock, sleeps 0.5s and begins. *)
Definition two_calls : System :=
  start recent_account (world_at up_service 1000)
        [AtGate sample_page; AtGate sample_page].

Definition two_calls_schedule : list move :=
  [Resume 0; Resume 0; Resume 1; Wait 0.3; Resume 0; Wait 0.1; Resume 0;
   Resume 1; Wait 0.5; Resume 1].



(** A [create_page] and a [flood_wait] of 90 seconds on a new account:
    the page call takes the request lock, the [flood_wait] closes the
    gate and sends its [create_account] request, and the page call sends
    its request while that one is still out. *)
Definition page_and_reprovision : System :=
  start (Telegraph_init tok60) (world_at up_service 1000)
        [AtGate sample_page; AtCheck 90].

Definition page_and_reprovision_schedule : list move :=
  [Resume 0; Resume 0; Resume 1; Resume 1; Resume 0].

(** * Proofs *)

(** ** The sanitizer *)

Section Sanitizer.

Lemma soup_ind2 (P : soup -> Prop) :
  P [] ->
  (forall s f, P f -> P (Text s :: f)) ->
  (forall j nm attrs ch f, P ch -> P f -> P (Tag j nm attrs ch :: f)) ->
  forall f, P f.
Proof.
  intros Hnil Htext Htag.
  assert (Hcons : forall n f, P f -> P (n :: f)).
  { fix IHn 1. intros [s | j nm attrs ch] f Hf.
    - apply Htext, Hf.
    - apply Htag; [|exact Hf].
      induction ch as [|n' ch' IHch]; [exact Hnil|].
      apply IHn, IHch. }
  intros f. induction f as [|n f IHf]; [exact Hnil|].
  apply Hcons, IHf.
Qed.

Lemma find_all_app f1 f2 : find_all (f1 ++ f2) = find_all f1 ++ find_all f2.
Proof. apply flat_map_app. Qed.

Lemma find_all_tag j nm attrs ch f :
  find_all (Tag j nm attrs ch :: f) = j :: find_all ch ++ find_all f.
Proof. reflexivity. Qed.

Lemma visit_app f1 f2 i : visit (f1 ++ f2) i = visit f1 i ++ visit f2 i.
Proof. apply flat_map_app. Qed.

Lemma visit_cons n f i : visit (n :: f) i = visit_node i n ++ visit f i.
Proof. reflexivity. Qed.

Lemma visit_fresh i f : i ∉ find_all f -> visit f i = f.
Proof.
  induction f as [| s f IH | j nm attrs ch f IHch IH] using soup_ind2; intros Hi.
  - reflexivity.
  - rewrite visit_cons. cbn. f_equal. apply IH. exact Hi.
  - rewrite find_all_tag in Hi.
    apply not_elem_of_cons in Hi as [Hne Hi].
    apply not_elem_of_app in Hi as [Hch Hf].
    rewrite visit_cons. cbn.
    destruct (Nat.eqb_spec j i) as [->|_]; [done|].
    cbn. f_equal.
    + f_equal. apply IHch, Hch.
    + apply IH, Hf.
Qed.

Lemma loop_app_l l f1 f2 :
  (forall i, i ∈ l -> i ∉ find_all f2) ->
  fold_left visit l (f1 ++ f2) = fold_left visit l f1 ++ f2.
Proof.
  revert f1. induction l as [|i l IH]; intros f1 Hl; [reflexivity|].
  cbn. rewrite visit_app, (visit_fresh i f2).
  - apply IH. intros k Hk. apply Hl. by right.
  - apply Hl. by left.
Qed.

Lemma loop_app_r l f1 f2 :
  (forall i, i ∈ l -> i ∉ find_all f1) ->
  fold_left visit l (f1 ++ f2) = f1 ++ fold_left visit l f2.
Proof.
  revert f2. induction l as [|i l IH]; intros f2 Hl; [reflexivity|].
  cbn. rewrite visit_app, (visit_fresh i f1).
  - apply IH. intros k Hk. apply Hl. by right.
  - apply Hl. by left.
Qed.

Lemma loop_under l j nm attrs ch :
  j ∉ l ->
  fold_left visit l [Tag j nm attrs ch] = [Tag j nm attrs (fold_left visit l ch)].
Proof.
  revert ch. induction l as [|i l IH]; intros ch Hj; [reflexivity|].
  apply not_elem_of_cons in Hj as [Hne Hj].
  cbn. destruct (Nat.eqb_spec j i) as [->|_]; [done|].
  cbn. apply IH, Hj.
Qed.

Lemma sanitize_app f1 f2 : sanitize (f1 ++ f2) = sanitize f1 ++ sanitize f2.
Proof. apply flat_map_app. Qed.

Lemma sanitize_cons n f : sanitize (n :: f) = sanitize_node n ++ sanitize f.
Proof. reflexivity. Qed.

Lemma find_all_sanitize f i : i ∈ find_all (sanitize f) -> i ∈ find_all f.
Proof.
  induction f as [| s f IH | j nm attrs ch f IHch IH] using soup_ind2.
  - done.
  - exact IH.
  - rewrite sanitize_cons, find_all_app, find_all_tag.
    rewrite elem_of_app, elem_of_cons, elem_of_app.
    intros [Hi | Hi]; [|by right; right; apply IH].
    cbn in Hi. destruct (mem nm TELEGRAPH_ALLOWED_TAGS).
    + cbn in Hi. rewrite app_nil_r in Hi.
      apply elem_of_cons in Hi as [->|Hi]; [by left|].
      right; left. by apply IHch.
    + right; left. by apply IHch.
Qed.

Lemma sanitize_well_formed f : well_formed f -> well_formed (sanitize f).
Proof.
  unfold well_formed.
  induction f as [| s f IH | j nm attrs ch f IHch IH] using soup_ind2.
  - done.
  - exact IH.
  - rewrite find_all_tag, sanitize_cons, find_all_app.
    intros [Hj [Hch [Hdisj Hf]]%NoDup_app]%NoDup_cons.
    assert (Hsub: forall i, i ∈ find_all (sanitize ch) -> i ∉ find_all (sanitize f)).
    { intros i Hi Hi'. apply (Hdisj i); by apply find_all_sanitize. }
    cbn. destruct (mem nm TELEGRAPH_ALLOWED_TAGS); cbn;
      fold (sanitize ch); fold (find_all (sanitize ch)).
    + rewrite app_nil_r. apply NoDup_cons. split.
      * intros [Hi%find_all_sanitize|Hi%find_all_sanitize]%elem_of_app.
        -- apply Hj, elem_of_app. by left.
        -- apply Hj, elem_of_app. by right.
      * apply NoDup_app; auto.
    + apply NoDup_app; auto.
Qed.

Lemma sanitize_loop_spec f : well_formed f -> sanitize_loop f = sanitize f.
Proof.
  unfold well_formed, sanitize_loop.
  induction f as [| s f IH | j nm attrs ch f IHch IH] using soup_ind2.
  - done.
  - intros Hf. change (find_all (Text s :: f)) with (find_all f).
    change (Text s :: f) with ([Text s] ++ f) at 1.
    rewrite loop_app_r by (intros i _ Hi; inversion Hi).
    rewrite IH by done. reflexivity.
  - rewrite find_all_tag.
    intros [Hj [Hch [Hdisj Hf]]%NoDup_app]%NoDup_cons.
    apply not_elem_of_app in Hj as [Hjch Hjf].
    cbn [fold_left]. rewrite visit_cons, (visit_fresh j f) by done.
    rewrite fold_left_app, sanitize_cons. cbn [visit_node sanitize_node].
    rewrite Nat.eqb_refl.
    destruct (mem nm TELEGRAPH_ALLOWED_TAGS).
    + rewrite loop_app_l by done. rewrite loop_under by done.
      rewrite IHch by done.
      rewrite loop_app_r.
      * by rewrite IH.
      * intros i Hi. rewrite find_all_tag, app_nil_r.
        intros [->|?%find_all_sanitize]%elem_of_cons; [done|].
        by apply (Hdisj i).
    + rewrite loop_app_l by done. rewrite IHch by done.
      rewrite loop_app_r.
      * by rewrite IH.
      * intros i Hi ?%find_all_sanitize. by apply (Hdisj i).
Qed.

Lemma strip_attrs_idem attrs : strip_attrs (strip_attrs attrs) = strip_attrs attrs.
Proof.
  unfold strip_attrs. induction attrs as [|kv attrs IH]; [done|].
  cbn. destruct (mem kv.1 ALLOWED_ATTRS) eqn:E; cbn; rewrite ?E, IH; done.
Qed.

Lemma sanitize_idem f : sanitize (sanitize f) = sanitize f.
Proof.
  induction f as [| s f IH | j nm attrs ch f IHch IH] using soup_ind2.
  - done.
  - change (sanitize (Text s :: f)) with (Text s :: sanitize f).
    change (sanitize (Text s :: sanitize f))
      with (Text s :: sanitize (sanitize f)).
    by rewrite IH.
  - rewrite sanitize_cons, sanitize_app, IH. f_equal.
    cbn. fold (sanitize ch).
    destruct (mem nm TELEGRAPH_ALLOWED_TAGS) eqn:E.
    + cbn. rewrite E, strip_attrs_idem. fold (sanitize (sanitize ch)).
      by rewrite IHch.
    + exact IHch.
Qed.

End Sanitizer.

(** C7, as the code has it. For every parsed document whose tag objects
    are distinct, the loop over [find_all] computes the recursive-descent
    sanitizer (a disallowed tag is replaced in place by its sanitized
    children, a surviving tag keeps only its allowed attributes); the
    tree it leaves again has distinct tag objects, and running the loop
    on that tree changes nothing. For the spec's example, as the parser
    hands it over, the result is the text [x] followed by [<b>ok</b>]: the
    content of the unwrapped [script] element is kept. The statement is
    about trees; parsing a serialized result again is outside the
    module. *)
Theorem sanitize_loop_fixed_point (f : soup) :
  well_formed f ->
  sanitize_loop f = sanitize f
  /\ well_formed (sanitize_loop f)
  /\ sanitize_loop (sanitize_loop f) = sanitize_loop f
  /\ sanitize_loop example_document = example_sanitized.
Proof.
  intros Hwf. split; [by apply sanitize_loop_spec|].
  rewrite (sanitize_loop_spec f Hwf).
  split; [by apply sanitize_well_formed|].
  split; [|by vm_compute].
  rewrite sanitize_loop_spec by by apply sanitize_well_formed.
  apply sanitize_idem.
Qed.

Lemma example_document_well_formed : well_formed example_document.
Proof. unfold well_formed. by apply (bool_decide_unpack _). Qed.

Lemma sanitize_loop_fixed_point_witness :
  well_formed example_document
  /\ sanitize_loop (sanitize_loop example_document) = sanitize_loop example_document.
Proof.
  split; [exact example_document_well_formed|].
  apply (sanitize_loop_fixed_point example_document example_document_well_formed).
Defined.

(** C7, as stated, fails on the spec's own example: the sanitized
    document is not [<b>ok</b>]. *)
Lemma example_keeps_script_text :
  sanitize_loop example_fragment <> example_expected
  /\ sanitize_loop example_document <> example_expected.
Proof. split; by vm_compute. Qed.

(** ** Round-robin selection *)

Section RoundRobin.

Lemma cursor_lt self : _accounts self <> [] -> cursor self < length (_accounts self).
Proof.
  intros Hne. unfold cursor.
  destruct (_accounts self) as [|a l]; [done|]. cbn [length].
  destruct (Z.leb_spec 0 (_curr_id self)), (Z.ltb_spec (_curr_id self) (Z.of_nat (S (length l))));
    cbn [andb]; lia.
Qed.

Lemma get_account_eq self :
  _accounts self <> [] ->
  get_account self =
    (Returned (cursor self),
     {| tokens := tokens self; _accounts := _accounts self;
        _curr_id := Z.of_nat (advance (length (_accounts self)) (cursor self)) |}).
Proof.
  intros Hne. pose proof (cursor_lt self Hne) as Hlt.
  unfold get_account, cursor, advance in *.
  destruct (_accounts self) as [|a l] eqn:E; [done|].
  set (len := Z.of_nat (length (a :: l))) in *.
  set (c := if (0 <=? _curr_id self)%Z && (_curr_id self <? len)%Z
            then _curr_id self else 0%Z) in *.
  assert (0 <= c)%Z as Hc0.
  { subst c. destruct (Z.leb_spec 0 (_curr_id self)); cbn [andb]; [|lia].
    destruct (_curr_id self <? len)%Z; lia. }
  f_equal. f_equal.
  destruct (Z.leb_spec 0 (c + 1)); [|lia]. cbn [andb].
  destruct (Z.ltb_spec (c + 1) len), (Nat.ltb_spec (S (Z.to_nat c)) (length (a :: l)));
    subst len; lia.
Qed.

Lemma cursor_set self c :
  c < length (_accounts self) ->
  cursor {| tokens := tokens self; _accounts := _accounts self;
            _curr_id := Z.of_nat c |} = c.
Proof.
  intros Hc. unfold cursor. cbn [_accounts _curr_id].
  destruct (Z.leb_spec 0 (Z.of_nat c)); [|lia].
  destruct (Z.ltb_spec (Z.of_nat c) (Z.of_nat (length (_accounts self)))); [|lia].
  cbn [andb]. lia.
Qed.

Lemma advance_lt N c : 1 <= N -> advance N c < N.
Proof. unfold advance. destruct (Nat.ltb_spec (S c) N); lia. Qed.

Lemma get_accounts_rotation m self :
  _accounts self <> [] ->
  get_accounts m self = rotation (length (_accounts self)) m (cursor self).
Proof.
  revert self. induction m as [|m IH]; intros self Hne; [done|].
  cbn [get_accounts rotation]. rewrite get_account_eq by done.
  rewrite IH by done. cbn [_accounts]. f_equal. f_equal.
  apply cursor_set, advance_lt.
  destruct (_accounts self); [done|cbn; lia].
Qed.

Lemma rotation_app N a b c :
  rotation N (a + b) c = rotation N a c ++ rotation N b (Nat.iter a (advance N) c).
Proof.
  revert c. induction a as [|a IH]; intros c; [done|].
  cbn [Nat.add rotation]. by rewrite IH, Nat.iter_succ_r.
Qed.

Lemma rotation_seq N m c : c + m <= N -> rotation N m c = seq c m.
Proof.
  revert c. induction m as [|m IH]; intros c Hc; [done|].
  cbn [rotation seq]. f_equal.
  destruct m as [|m]; [done|].
  unfold advance. destruct (Nat.ltb_spec (S c) N); [|lia]. apply IH. lia.
Qed.

Lemma iter_advance N m c :
  c + m <= N -> c < N ->
  Nat.iter m (advance N) c = if c + m <? N then c + m else 0.
Proof.
  induction m as [|m IH]; intros Hc HN.
  - change (Nat.iter 0 (advance N) c) with c.
    destruct (Nat.ltb_spec (c + 0) N); lia.
  - rewrite Nat.iter_succ, IH by lia.
    destruct (Nat.ltb_spec (c + m) N); [|lia].
    unfold advance.
    destruct (Nat.ltb_spec (S (c + m)) N), (Nat.ltb_spec (c + S m) N); lia.
Qed.

Lemma rotation_period N c :
  c < N ->
  rotation N N c = seq c (N - c) ++ seq 0 c /\ Nat.iter N (advance N) c = c.
Proof.
  intros Hc.
  assert (Hz : Nat.iter (N - c) (advance N) c = 0).
  { rewrite iter_advance by lia. destruct (Nat.ltb_spec (c + (N - c)) N); lia. }
  assert (HN : (N - c) + c = N) by lia.
  split.
  - rewrite <- HN at 2.
    rewrite rotation_app, Hz, !rotation_seq by lia. done.
  - enough (Nat.iter (c + (N - c)) (advance N) c = c) as Hx
      by (rewrite Nat.add_comm, HN in Hx; exact Hx).
    rewrite Nat.iter_add, Hz, iter_advance by lia.
    destruct (Nat.ltb_spec (0 + c) N); lia.
Qed.

Lemma times_returned_app i l k :
  times_returned i (l ++ k) = times_returned i l + times_returned i k.
Proof. apply count_occ_app. Qed.

Lemma times_returned_seq i a n :
  times_returned i (seq a n) = if (a <=? i) && (i <? a + n) then 1 else 0.
Proof.
  unfold times_returned. revert a. induction n as [|n IH]; intros a.
  - cbn [seq count_occ].
    destruct (Nat.leb_spec a i), (Nat.ltb_spec i (a + 0)); cbn [andb]; lia.
  - cbn [seq count_occ]. rewrite IH.
    destruct (Nat.eq_dec a i), (Nat.leb_spec a i), (Nat.ltb_spec i (a + S n)),
      (Nat.leb_spec (S a) i), (Nat.ltb_spec i (S a + n)); cbn [andb]; lia.
Qed.

Lemma times_returned_period N c i :
  c < N -> i < N -> times_returned i (rotation N N c) = 1.
Proof.
  intros Hc Hi. rewrite (proj1 (rotation_period N c Hc)).
  rewrite times_returned_app, !times_returned_seq.
  destruct (Nat.leb_spec c i), (Nat.ltb_spec i (c + (N - c))),
    (Nat.leb_spec 0 i), (Nat.ltb_spec i (0 + c)); cbn [andb]; lia.
Qed.

Lemma rotation_cycle N m c :
  c < N -> rotation N (N + m) c = rotation N N c ++ rotation N m c.
Proof.
  intros Hc. by rewrite rotation_app, (proj2 (rotation_period N c Hc)).
Qed.

Lemma times_returned_short N r c i :
  c < N -> i < N -> r <= N -> times_returned i (rotation N r c) <= 1.
Proof.
  intros Hc Hi Hr.
  pose proof (times_returned_period N c i Hc Hi) as H1.
  assert (HN : r + (N - r) = N) by lia.
  rewrite <- HN in H1 at 2.
  rewrite rotation_app, times_returned_app in H1. lia.
Qed.

Lemma times_returned_rounds N q r c i :
  c < N -> i < N ->
  times_returned i (rotation N (q * N + r) c) = q + times_returned i (rotation N r c).
Proof.
  intros Hc Hi. induction q as [|q IH]; [done|].
  replace (S q * N + r) with (N + (q * N + r)) by lia.
  rewrite rotation_cycle, times_returned_app, IH by done.
  rewrite times_returned_period by done. lia.
Qed.

Lemma times_returned_bounds N m c i :
  c < N -> i < N ->
  m / N <= times_returned i (rotation N m c) <= (m + N - 1) / N.
Proof.
  intros Hc Hi.
  pose proof (Nat.div_mod_eq m N) as Hm.
  pose proof (Nat.mod_upper_bound m N ltac:(lia)) as Hr.
  set (q := m / N) in *. set (r := m mod N) in *. clearbody q r.
  assert (E : rotation N m c = rotation N (q * N + r) c) by (f_equal; lia).
  rewrite E, times_returned_rounds by done.
  pose proof (times_returned_short N r c i Hc Hi ltac:(lia)) as Hs.
  split; [lia|].
  apply Nat.div_le_lower_bound; [lia|].
  destruct (Nat.eq_dec r 0) as [Hr0|Hr0].
  - subst r. cbn [rotation times_returned count_occ]. lia.
  - transitivity (N * (q + 1)); [|lia].
    apply Nat.mul_le_mono_l. lia.
Qed.

Lemma times_returned_share N m c i :
  c < N -> i < N ->
  times_returned i (rotation N m c) = m / N
  \/ times_returned i (rotation N m c) = (m + N - 1) / N.
Proof.
  intros Hc Hi.
  pose proof (times_returned_bounds N m c i Hc Hi) as [Hlo Hhi].
  assert (Hgap : (m + N - 1) / N < m / N + 2).
  { apply Nat.Div0.div_lt_upper_bound.
    pose proof (Nat.div_mod_eq m N) as Hm.
    pose proof (Nat.mod_upper_bound m N ltac:(lia)) as Hr.
    set (q := m / N) in *. set (r := m mod N) in *. clearbody q r. nia. }
  lia.
Qed.

End RoundRobin.

(** C5, as the code has it. On a pool of N >= 1 accounts [get_account]
    returns the account at the rotation cursor (the stored cursor, or 0 when
    that is out of range) and stores the cursor advanced modulo N, which
    lies in [0, N). The accounts returned by successive calls are cyclic
    with period N: the first N calls return every account exactly once, and
    N+m calls return what N calls return followed by what m calls return.
    Over m calls every account is returned floor(m/N) or ceil(m/N)
    times. *)
Theorem get_account_round_robin (self : APIs) :
  _accounts self <> [] ->
  (exists self',
      get_account self = (Returned (cursor self), self')
      /\ is_Some (_accounts self !! cursor self)
      /\ _accounts self' = _accounts self
      /\ _curr_id self' = Z.of_nat (S (cursor self) mod length (_accounts self))
      /\ (0 <= _curr_id self' < Z.of_nat (length (_accounts self)))%Z)
  /\ ((0 <= _curr_id self < Z.of_nat (length (_accounts self)))%Z ->
      cursor self = Z.to_nat (_curr_id self))
  /\ (~ (0 <= _curr_id self < Z.of_nat (length (_accounts self)))%Z ->
      cursor self = 0)
  /\ (forall m,
        get_accounts (length (_accounts self) + m) self
        = get_accounts (length (_accounts self)) self ++ get_accounts m self)
  /\ (forall i, i < length (_accounts self) ->
        times_returned i (get_accounts (length (_accounts self)) self) = 1)
  /\ (forall m i, i < length (_accounts self) ->
        times_returned i (get_accounts m self) = m / length (_accounts self)
        \/ times_returned i (get_accounts m self)
           = (m + length (_accounts self) - 1) / length (_accounts self)).
Proof.
  intros Hne. pose proof (cursor_lt self Hne) as Hlt.
  set (N := length (_accounts self)) in *.
  repeat split.
  - eexists. split; [by apply get_account_eq|]. cbn [_accounts _curr_id]. fold N.
    assert (HS : advance N (cursor self) = S (cursor self) mod N).
    { unfold advance. destruct (Nat.ltb_spec (S (cursor self)) N) as [H|H].
      - by rewrite Nat.mod_small.
      - replace (S (cursor self)) with N by lia. by rewrite Nat.Div0.mod_same. }
    pose proof (advance_lt N (cursor self) ltac:(lia)) as Ha.
    repeat split.
    + by apply lookup_lt_is_Some.
    + by rewrite HS.
    + lia.
    + lia.
  - intros [H0 H1]. unfold cursor. fold N.
    destruct (Z.leb_spec 0 (_curr_id self)); [|lia].
    destruct (Z.ltb_spec (_curr_id self) (Z.of_nat N)); [done|lia].
  - intros Hout. unfold cursor. fold N.
    destruct (Z.leb_spec 0 (_curr_id self)); [|done].
    destruct (Z.ltb_spec (_curr_id self) (Z.of_nat N)); [lia|done].
  - intros m. rewrite !get_accounts_rotation by done. by apply rotation_cycle.
  - intros i Hi. rewrite get_accounts_rotation by done.
    by apply times_returned_period.
  - intros m i Hi. rewrite get_accounts_rotation by done.
    by apply times_returned_share.
Qed.

Lemma get_account_round_robin_witness :
  _accounts one_account_pool <> []
  /\ times_returned 0 (get_accounts 1 one_account_pool) = 1.
Proof.
  assert (H : _accounts one_account_pool <> []) by done.
  split; [exact H|].
  exact (proj1 (proj2 (proj2 (proj2 (proj2
           (get_account_round_robin one_account_pool H))))) 0 (Nat.lt_0_1)).
Defined.

(** C5, as stated, fails: a pool of one account asked once (N = 1, k = 0)
    returns its account once, and neither ceil(0/1) nor floor(0/1) is 1. *)
Lemma even_share_off_by_a_round : ~ even_share_as_specified.
Proof.
  intros H. specialize (H one_account_pool 0 0).
  cbn in H. destruct H as [H|H]; [lia|lia|discriminate|discriminate].
Qed.

(** ** The account: request spacing and flood gate *)

Section Account.

Lemma spacing_floor self w : (last_run self + 0.5 <= transport_start self w)%Q.
Proof.
  unfold transport_start, sleep, spacing. cbn [clock].
  pose proof (Q.le_max_l (0.5 - (clock w - last_run self)) 0) as H1.
  pose proof (Q.le_max_l (Qmax (0.5 - (clock w - last_run self)) 0) 0) as H2.
  lra.
Qed.

Lemma create_page_free self page w :
  _fc_lock self = false -> _request_lock self = false ->
  create_page self page w =
    let w1 := sleep (spacing self w) w in
    match send (page_request self page) w1 with
    | (Ok url, w2) => (Done (Returned url), set_last_run (clock w2) self, w2)
    | (Fail e, w2) => (Done (Raised e), self, w2)
    end.
Proof. intros Hfc Hrq. unfold create_page. by rewrite Hfc, Hrq. Qed.

Lemma create_page_trace self page w :
  _fc_lock self = false -> _request_lock self = false ->
  trace (create_page self page w).2
  = trace w ++ [EvSleep (spacing self w);
                EvRequest (transport_start self w) (page_request self page)].
Proof.
  intros Hfc Hrq. rewrite create_page_free by done.
  unfold send, transport_start. cbn zeta.
  destruct (service _ _ _) as [[url|e] took]; cbn [snd trace sleep];
    by rewrite <- app_assoc.
Qed.

End Account.

(** ** The two locks under asyncio *)

Section Locks.

Lemma number_cons f x l : number f (x :: l) = Nat.b2n (f x) + number f l.
Proof. unfold number. cbn [List.filter]. by destruct (f x). Qed.

Lemma number_insert f l i t t' :
  l !! i = Some t ->
  number f (<[i := t']> l) + Nat.b2n (f t) = number f l + Nat.b2n (f t').
Proof.
  revert i. induction l as [|x l IH]; intros [|i] Hi; try done.
  - cbn in Hi. injection Hi as ->.
    change (<[0 := t']> (t :: l)) with (t' :: l).
    rewrite !number_cons. lia.
  - cbn in Hi. change (<[S i := t']> (x :: l)) with (x :: <[i := t']> l).
    rewrite !number_cons. specialize (IH i Hi). lia.
Qed.

Lemma number_ge f l i t : l !! i = Some t -> f t = true -> 1 <= number f l.
Proof.
  revert i. induction l as [|x l IH]; intros [|i] Hi Hf; try done.
  - cbn in Hi. injection Hi as ->. rewrite number_cons, Hf. cbn. lia.
  - cbn in Hi. rewrite number_cons. specialize (IH i Hi Hf). lia.
Qed.

Lemma number_unique f l i j t t' :
  number f l <= 1 ->
  l !! i = Some t -> f t = true -> l !! j = Some t' -> f t' = true -> i = j.
Proof.
  revert i j. induction l as [|x l IH]; intros [|i] [|j] Hn Hi Hf Hj Hf';
    try done; rewrite number_cons in Hn; cbn in Hi, Hj.
  - injection Hi as ->. rewrite Hf in Hn.
    pose proof (number_ge f l j t' Hj Hf'). cbn in Hn. lia.
  - injection Hj as ->. rewrite Hf' in Hn.
    pose proof (number_ge f l i t Hi Hf). cbn in Hn. lia.
  - f_equal. apply IH; try done. lia.
Qed.

Lemma number_none f l i t : number f l = 0 -> l !! i = Some t -> f t = false.
Proof.
  intros Hn Hi. destruct (f t) eqn:Hf; [|done].
  pose proof (number_ge f l i t Hi Hf). lia.
Qed.

Lemma number_pending f l :
  (forall t, pending t = true -> f t = false) ->
  Forall (fun t => pending t = true) l -> number f l = 0.
Proof.
  intros Hf. induction 1 as [|x l Hx _ IH]; [done|].
  by rewrite number_cons, (Hf x Hx), IH.
Qed.

Lemma observe_app {A} (f : A -> mark -> option A) a l k :
  observe f a (l ++ k)
  = match observe f a l with
    | Some a' => observe f a' k
    | None => None
    end.
Proof.
  revert a. induction l as [|m l IH]; intros a; [done|].
  cbn [app observe]. destruct (f a m); [apply IH|done].
Qed.

Lemma lookup_insert_task (l : list task) i j t' x :
  <[i := t']> l !! j = Some x ->
  (j = i /\ x = t') \/ (j <> i /\ l !! j = Some x).
Proof.
  intros H. destruct (decide (j = i)) as [->|Hne].
  - left. split; [done|].
    destruct (decide (i < length l)) as [Hlt|Hge].
    + rewrite list_lookup_insert_eq in H by done. by injection H.
    + rewrite list_insert_ge in H by lia.
      apply lookup_lt_Some in H. lia.
  - right. split; [done|]. by rewrite list_lookup_insert_ne in H.
Qed.

Lemma consistent_start self w calls :
  unlocked self -> Forall (fun t => pending t = true) calls ->
  consistent (start self w calls).
Proof.
  intros [Hfc Hrq] Hp. unfold consistent, start. cbn [account env tasks log].
  rewrite Hfc, Hrq.
  split; [apply number_pending; [by intros []|done]|].
  split; [apply number_pending; [by intros []|done]|].
  split.
  { intros i page wake Hi.
    rewrite Forall_forall in Hp. apply list_elem_of_lookup_2 in Hi.
    by specialize (Hp _ Hi). }
  split.
  - eexists. split; [reflexivity|]. split; [|done]. cbn [calling tasks].
    apply number_pending; [by intros []|done].
  - exists None. by split.
Qed.

Lemma number_le f g l :
  (forall t, f t = true -> g t = true) -> number f l <= number g l.
Proof.
  intros Hfg. induction l as [|x l IH]; [done|]. rewrite !number_cons.
  destruct (f x) eqn:Hf; [rewrite (Hfg x Hf)|]; cbn [Nat.b2n]; lia.
Qed.

Lemma page_frame s i t t' self' w' lg pw :
  tasks s !! i = Some t -> in_flight t = false -> in_flight t' = false ->
  last_run self' = last_run (account s) ->
  (clock (env s) <= clock w')%Q ->
  page_state s pw ->
  page_state {| account := self'; env := w';
                tasks := <[i := t']> (tasks s); log := lg |} pw.
Proof.
  intros Hi Ht Ht' Hlr Hclk [Hcall Hlast]. split.
  - destruct (calling pw) as [[i0 t0]|]; cbn [tasks env].
    + destruct Hcall as [(rep & fin & Hi0) Ht0]. split; [|lra].
      exists rep, fin. rewrite list_lookup_insert_ne; [done|].
      intros <-. rewrite Hi in Hi0. by injection Hi0 as ->.
    + pose proof (number_insert in_flight _ _ _ t' Hi) as N.
      rewrite Ht, Ht' in N. cbn [Nat.b2n] in N. lia.
  - intros u Hu. cbn [account]. rewrite Hlr. by apply Hlast.
Qed.

Lemma gate_frame s i t t' self' w' lg gw :
  tasks s !! i = Some t -> holds_gate t = false ->
  _fc_lock self' = _fc_lock (account s) ->
  gate_state s gw ->
  gate_state {| account := self'; env := w';
                tasks := <[i := t']> (tasks s); log := lg |} gw.
Proof.
  intros Hi Ht Hfc Hg. unfold gate_state in *. cbn [account tasks].
  destruct gw as [[[i0 t0] ra]|]; [|by rewrite Hfc].
  destruct Hg as [Hl Hg]. split; [by rewrite Hfc|].
  assert (Hne : i0 <> i).
  { intros ->. destruct Hg as [(rep & fin & Hi0 & _)|(wake & Hi0 & _)];
      rewrite Hi in Hi0; by injection Hi0 as ->. }
  destruct Hg as [(rep & fin & Hi0 & Hra)|(wake & Hi0 & Hw)].
  - left. exists rep, fin. by rewrite list_lookup_insert_ne.
  - right. exists wake. by rewrite list_lookup_insert_ne.
Qed.

Lemma sleep_frame (l : list task) i t' (lr lr' : Q) :
  (forall j page wake, l !! j = Some (Sleeping page wake) -> (lr + 0.5 <= wake)%Q) ->
  lr' = lr ->
  (forall page wake, t' = Sleeping page wake -> (lr + 0.5 <= wake)%Q) ->
  forall j page wake,
    <[i := t']> l !! j = Some (Sleeping page wake) -> (lr' + 0.5 <= wake)%Q.
Proof.
  intros Hsl -> Ht' j page wake Hj.
  apply lookup_insert_task in Hj as [[-> Heq]|[Hne Hj]].
  - by apply (Ht' page).
  - by apply (Hsl j page).
Qed.

Lemma consistent_tick s d :
  (0 <= d)%Q -> consistent s ->
  consistent {| account := account s; env := tick d (env s);
                tasks := tasks s; log := log s |}.
Proof.
  intros Hd (Hrq & Hgt & Hsl & (pw & Hpw & Hcall & Hlast) & Hgate).
  unfold consistent. cbn [account env tasks log].
  split; [done|]. split; [done|]. split; [done|]. split; [|done].
  exists pw. split; [done|]. split; [|done]. cbn [tasks env tick clock].
  destruct (calling pw) as [[i0 t0]|]; [|done].
  destruct Hcall as [Hin Ht0]. split; [done|]. lra.
Qed.

Lemma consistent_task s i t t' self' w' ms :
  tasks s !! i = Some t ->
  resume i t (account s) (env s) = Some (t', self', w', ms) ->
  consistent s ->
  consistent {| account := self'; env := w';
                tasks := <[i := t']> (tasks s); log := log s ++ ms |}.
Proof.
  intros Hi Hres (Hrq & Hgt & Hsl & (pw & Hpw & Hps) & (gw & Hgw & Hgs)).
  pose proof (number_insert holds_request _ _ _ t' Hi) as Nrq.
  pose proof (number_insert holds_gate _ _ _ t' Hi) as Ngt.
  pose proof (number_le in_flight holds_request (tasks s)) as Nle.
  assert (Hlt : i < length (tasks s)) by (by apply (lookup_lt_Some _ _ t)).
  unfold consistent. cbn [account env tasks log].
  rewrite !observe_app, Hpw, Hgw.
  destruct t; cbn [resume] in Hres.
  - (* the gate is passed *)
    destruct (_fc_lock (account s)) eqn:Hfc; [done|].
    injection Hres as <- <- <- <-.
    cbn [holds_request holds_gate Nat.b2n] in Nrq, Ngt.
    split; [lia|]. split; [rewrite Hfc in *; lia|].
    split; [by apply (sleep_frame _ _ _ (last_run (account s)))|].
    split.
    + exists pw. split; [done|]. apply (page_frame s i (AtGate page)); try done.
      lra.
    + destruct gw as [[[i0 t0] ra]|].
      * destruct Hgs as [Hl _]. congruence.
      * exists None. split; [done|]. exact Hfc.
  - (* the request lock is taken and the sleep begins *)
    destruct (_request_lock (account s)) eqn:Hlk; [done|].
    unfold begin_sleep in Hres. injection Hres as <- <- <- <-.
    cbn [holds_request holds_gate Nat.b2n] in Nrq, Ngt.
    cbn [set_request_lock _request_lock _fc_lock last_run Nat.b2n] in *.
    split; [lia|]. split; [lia|].
    split.
    { apply (sleep_frame _ _ _ (last_run (account s))); try done.
      intros page' wake' [= <- <-]. exact (spacing_floor (account s) (env s)). }
    split.
    + exists pw. split; [done|].
      apply (page_frame s i (AtLock page)); try done. cbn [clock]. lra.
    + exists gw. split; [done|]. by apply (gate_frame s i (AtLock page)).
  - (* the sleep is over and the transport call begins *)
    destruct (Qle_bool wake (clock (env s))) eqn:Hwake; [|done].
    apply Qle_bool_iff in Hwake.
    unfold begin_call in Hres.
    destruct (service (env s) (served (env s)) _) as [rep took].
    injection Hres as <- <- <- <-.
    cbn [holds_request holds_gate Nat.b2n] in Nrq, Ngt.
    pose proof (Hsl i page wake Hi) as Hfloor.
    destruct Hps as [Hcall Hlast].
    assert (Hone : number holds_request (tasks s) <= 1)
      by (rewrite Hrq; destruct (_request_lock (account s)); cbn; lia).
    split; [lia|]. split; [lia|].
    split; [by apply (sleep_frame _ _ _ (last_run (account s)))|].
    split.
    + destruct (calling pw) as [[i0 t0]|] eqn:Hc.
      { destruct Hcall as [(rep0 & fin0 & Hi0) _].
        pose proof (number_unique _ _ _ _ _ _ Hone Hi eq_refl Hi0 eq_refl) as <-.
        rewrite Hi in Hi0. discriminate Hi0. }
      cbn [observe watch_page]. rewrite Hc.
      assert (Hok : match last_ok pw with
                    | Some u => Qle_bool (u + 0.5) (clock (env s))
                    | None => true
                    end = true).
      { destruct (last_ok pw) as [u|] eqn:Hu; [|done].
        apply Qle_bool_iff. rewrite <- (Hlast u eq_refl). lra. }
      rewrite Hok. eexists. split; [reflexivity|]. split.
      * cbn [calling tasks env clock]. split; [|lra].
        exists rep, (clock (env s) + took)%Q. by apply list_lookup_insert_eq.
      * exact Hlast.
    + exists gw. split; [done|]. by apply (gate_frame s i (Sleeping page wake)).
  - (* the reply is there: the call is over and the request lock released *)
    destruct (Qle_bool fin (clock (env s))) eqn:Hfin; [|done].
    destruct Hps as [Hcall Hlast].
    assert (Hone : number holds_request (tasks s) <= 1)
      by (rewrite Hrq; destruct (_request_lock (account s)); cbn; lia).
    pose proof (number_ge holds_request _ _ _ Hi eq_refl) as Hge.
    pose proof (number_ge in_flight _ _ _ Hi eq_refl) as Hgf.
    pose proof (number_insert in_flight _ _ _ t' Hi) as Nfl.
    specialize (Nle ltac:(by intros [])).
    assert (Hnosleep : forall j page wake,
               <[i := t']> (tasks s) !! j = Some (Sleeping page wake) -> False).
    { intros j page wake Hj.
      apply lookup_insert_task in Hj as [[-> Heq]|[Hne Hj]].
      - subst t'. by destruct rep.
      - apply Hne. symmetry.
        by apply (number_unique _ _ _ _ _ _ Hone Hi eq_refl Hj eq_refl). }
    destruct (calling pw) as [[i0 t0]|] eqn:Hc; [|lia].
    destruct Hcall as [(rep0 & fin0 & Hi0) Ht0].
    pose proof (number_unique _ _ _ _ _ _ Hone Hi eq_refl Hi0 eq_refl) as <-.
    assert (Hq : Qle_bool t0 (clock (env s)) = true) by (by apply Qle_bool_iff).
    assert (Hlock : _request_lock (account s) = true).
    { destruct (_request_lock (account s)); [done|]. cbn in Hrq. lia. }
    rewrite Hlock in Hrq. cbn [Nat.b2n] in Hrq.
    destruct rep as [url|e]; injection Hres as <- <- <- <-;
      cbn [observe watch_page]; rewrite Hc, Nat.eqb_refl, Hq; cbn [andb];
      cbn [holds_request holds_gate in_flight Nat.b2n] in Nrq, Ngt, Nfl;
      cbn [set_request_lock set_last_run _request_lock _fc_lock last_run Nat.b2n].
    + split; [lia|]. split; [lia|].
      split; [intros j page wake Hj; by destruct (Hnosleep j page wake)|].
      split.
      * eexists. split; [reflexivity|]. split; cbn [calling last_ok tasks].
        { lia. }
        { by intros u [= <-]. }
      * exists gw. split; [done|]. by apply (gate_frame s i (InFlight (Ok url) fin)).
    + split; [lia|]. split; [lia|].
      split; [intros j page wake Hj; by destruct (Hnosleep j page wake)|].
      split.
      * eexists. split; [reflexivity|]. split; cbn [calling last_ok tasks].
        { lia. }
        { exact Hlast. }
      * exists gw. split; [done|]. by apply (gate_frame s i (InFlight (Fail e) fin)).
  - done.
  - (* [flood_wait] looks at the gate *)
    cbn [holds_request holds_gate Nat.b2n] in Nrq, Ngt.
    destruct (_fc_lock (account s)) eqn:Hfc; injection Hres as <- <- <- <-;
      cbn [holds_request holds_gate Nat.b2n] in Nrq, Ngt;
      (split; [lia|]); (split; [rewrite Hfc; cbn [Nat.b2n] in *; lia|]);
      (split; [by apply (sleep_frame _ _ _ (last_run (account s)))|]);
      (split;
       [exists pw; split; [done|];
        apply (page_frame s i (AtCheck retry_after)); try done; lra
       |exists gw; split; [done|];
        by apply (gate_frame s i (AtCheck retry_after))]).
  - (* the gate is closed *)
    destruct (_fc_lock (account s)) eqn:Hfc; [done|].
    cbn [Nat.b2n] in Hgt.
    destruct gw as [[[i0 t0] ra]|]; [destruct Hgs as [Hl _]; congruence|].
    destruct (Z.leb_spec 60 retry_after) as [Hra|Hra].
    + unfold begin_call in Hres.
      destruct (service (env s) (served (env s)) _) as [rep took].
      injection Hres as <- <- <- <-.
      cbn [holds_request holds_gate Nat.b2n] in Nrq, Ngt.
      cbn [set_fc_lock _request_lock _fc_lock last_run Nat.b2n].
      split; [lia|]. split; [lia|].
      split; [by apply (sleep_frame _ _ _ (last_run (account s)))|].
      split.
      * exists pw. split; [done|].
        apply (page_frame s i (AtAcquire retry_after)); try done. cbn [clock]. lra.
      * eexists. split; [reflexivity|]. cbn [gate_state account tasks _fc_lock set_fc_lock].
        split; [done|]. left. exists rep, (clock (env s) + took)%Q.
        split; [by apply list_lookup_insert_eq|done].
    + unfold begin_sleep in Hres. injection Hres as <- <- <- <-.
      cbn [holds_request holds_gate Nat.b2n] in Nrq, Ngt.
      cbn [set_fc_lock _request_lock _fc_lock last_run Nat.b2n].
      split; [lia|]. split; [lia|].
      split; [by apply (sleep_frame _ _ _ (last_run (account s)))|].
      split.
      * exists pw. split; [done|].
        apply (page_frame s i (AtAcquire retry_after)); try done. cbn [clock]. lra.
      * eexists. split; [reflexivity|]. cbn [gate_state account tasks _fc_lock set_fc_lock].
        split; [done|]. right. eexists.
        split; [by apply list_lookup_insert_eq|].
        pose proof (Q.le_max_l (inject_Z (retry_after + 1)) 0). lra.
  - (* the new account is there, or not: the gate is opened *)
    destruct (Qle_bool fin (clock (env s))) eqn:Hfin; [|done].
    pose proof (number_ge holds_gate _ _ _ Hi eq_refl) as Hge.
    assert (Hfc : _fc_lock (account s) = true).
    { destruct (_fc_lock (account s)); [done|]. cbn in Hgt. lia. }
    rewrite Hfc in Hgt. cbn [Nat.b2n] in Hgt.
    destruct gw as [[[i0 t0] ra]|]; [|cbn in Hgs; congruence].
    destruct Hgs as [_ Hgs].
    assert (Hi0 : i0 = i /\ (60 <= ra)%Z).
    { destruct Hgs as [(rep0 & fin0 & Hi0 & Hra)|(wake & Hi0 & _)].
      - split; [|done]. symmetry.
        exact (number_unique holds_gate (tasks s) i i0 _ _
                 ltac:(lia) Hi eq_refl Hi0 eq_refl).
      - pose proof (number_unique holds_gate (tasks s) i i0 _ _
                      ltac:(lia) Hi eq_refl Hi0 eq_refl) as <-.
        rewrite Hi in Hi0. discriminate Hi0. }
    destruct Hi0 as [-> Hra].
    assert (Hq : (60 <=? ra)%Z = true) by (by apply Z.leb_le).
    destruct rep as [tok|e]; injection Hres as <- <- <- <-;
      cbn [observe watch_gate]; rewrite Nat.eqb_refl, Hq; cbn [andb orb];
      cbn [holds_request holds_gate Nat.b2n] in Nrq, Ngt;
      cbn [set_fc_lock set_token _request_lock _fc_lock last_run Nat.b2n];
      (split; [lia|]); (split; [lia|]);
      (split; [by apply (sleep_frame _ _ _ (last_run (account s)))|]);
      (split;
       [exists pw; split; [done|];
        eapply (page_frame s i); [exact Hi|done|done|done|lra|done]
       |exists None; by split]).
  - (* the cooldown is over: the gate is opened *)
    destruct (Qle_bool wake (clock (env s))) eqn:Hwake; [|done].
    apply Qle_bool_iff in Hwake.
    pose proof (number_ge holds_gate _ _ _ Hi eq_refl) as Hge.
    assert (Hfc : _fc_lock (account s) = true).
    { destruct (_fc_lock (account s)); [done|]. cbn in Hgt. lia. }
    rewrite Hfc in Hgt. cbn [Nat.b2n] in Hgt.
    destruct gw as [[[i0 t0] ra]|]; [|cbn in Hgs; congruence].
    destruct Hgs as [_ Hgs].
    assert (Hi0 : i0 = i /\ (t0 + inject_Z (ra + 1) <= wake)%Q).
    { destruct Hgs as [(rep0 & fin0 & Hi0 & Hra)|(wake0 & Hi0 & Hw)].
      - pose proof (number_unique holds_gate (tasks s) i i0 _ _
                      ltac:(lia) Hi eq_refl Hi0 eq_refl) as <-.
        rewrite Hi in Hi0. discriminate Hi0.
      - pose proof (number_unique holds_gate (tasks s) i i0 _ _
                      ltac:(lia) Hi eq_refl Hi0 eq_refl) as <-.
        rewrite Hi in Hi0. injection Hi0 as <-. done. }
    destruct Hi0 as [-> Hw].
    injection Hres as <- <- <- <-.
    cbn [observe watch_gate]. rewrite Nat.eqb_refl.
    assert (Hq : Qle_bool (t0 + inject_Z (ra + 1)) (clock (env s)) = true)
      by (apply Qle_bool_iff; lra).
    rewrite Hq, orb_true_r. cbn [andb].
    cbn [holds_request holds_gate Nat.b2n] in Nrq, Ngt.
    cbn [set_fc_lock _request_lock _fc_lock last_run Nat.b2n].
    split; [lia|]. split; [lia|].
    split; [by apply (sleep_frame _ _ _ (last_run (account s)))|].
    split.
    + exists pw. split; [done|].
      apply (page_frame s i (Cooling wake)); try done. lra.
    + exists None. by split.
  - done.
Qed.

Lemma consistent_steps s s' : consistent s -> steps s s' -> consistent s'.
Proof.
  intros Hs. induction 1 as [|s s' s'' _ IH Hstep]; [done|].
  specialize (IH Hs). destruct Hstep as [s' d Hd|s' i t t' self' w' ms Hi Hres].
  - by apply consistent_tick.
  - by apply (consistent_task s' i t).
Qed.

Ltac system_norm :=
  cbn [resume start account env tasks log tick begin_sleep begin_call
       service served clock trace token last_run _fc_lock _request_lock
       set_request_lock set_last_run set_fc_lock set_token fst snd
       insert list_insert app].

Lemma steps_first s s' s'' : step s s' -> steps s' s'' -> steps s s''.
Proof.
  intros Hstep Hsteps. induction Hsteps as [s1|s1 s2 s3 _ IH Hlast].
  - apply (steps_next s s s1); [apply steps_refl|exact Hstep].
  - apply (steps_next s s2 s3); [by apply IH|exact Hlast].
Qed.

Lemma Qle_bool_refl (x : Q) : Qle_bool x x = true.
Proof. apply Qle_bool_iff. lra. Qed.

Lemma run_task s i t t' self' w' ms s'' :
  tasks s !! i = Some t ->
  resume i t (account s) (env s) = Some (t', self', w', ms) ->
  steps {| account := self'; env := w';
           tasks := <[i := t']> (tasks s); log := log s ++ ms |} s'' ->
  steps s s''.
Proof. intros Hi Hres. apply steps_first. by apply (step_task s i t). Qed.

Lemma run_tick s d s'' :
  (0 <= d)%Q ->
  steps {| account := account s; env := tick d (env s);
           tasks := tasks s; log := log s |} s'' ->
  steps s s''.
Proof. intros Hd. apply steps_first. by apply step_tick. Qed.

(** A [create_page] that is alone on the account runs through as the
    function [create_page] says. *)
Lemma create_page_alone self page w rep took :
  unlocked self ->
  service w (served w) (page_request self page) = (rep, took) ->
  (0 <= took)%Q ->
  exists r self1 w1 ok,
    create_page self page w = (Done r, self1, w1)
    /\ steps (start self w [AtGate page])
             {| account := self1; env := w1; tasks := [PageDone r];
                log := [Passed 0 (clock w); Began 0 (transport_start self w);
                        Ended 0 (clock w1) ok] |}.
Proof.
  intros [Hfc Hrq] Hsvc Htook.
  pose proof (Q.le_max_r (spacing self w) 0) as Hd.
  rewrite create_page_free by done.
  unfold send. cbn zeta.
  change (service (sleep (spacing self w) w)) with (service w).
  change (served (sleep (spacing self w) w)) with (served w).
  rewrite Hsvc. pose proof Hsvc as Hsvc'. unfold page_request in Hsvc'.
  assert (Hrun : forall (r : result string) (self1 : Telegraph) (ok : bool),
    self1 = (if ok then set_last_run (clock w + Qmax (spacing self w) 0 + took) self
             else self) ->
    r = match rep with Ok url => Returned url | Fail e => Raised e end ->
    ok = match rep with Ok _ => true | Fail _ => false end ->
    steps (start self w [AtGate page])
      {| account := self1;
         env := {| service := service w; served := S (served w);
                   clock := clock w + Qmax (spacing self w) 0 + took;
                   trace := (trace w ++ [EvSleep (spacing self w)])
                            ++ [EvRequest (clock w + Qmax (spacing self w) 0)
                                  {| req_token := token self; req_method := page |}] |};
         tasks := [PageDone r];
         log := [Passed 0 (clock w); Began 0 (transport_start self w);
                 Ended 0 (clock w + Qmax (spacing self w) 0 + took) ok] |}).
  { intros r self1 ok -> -> ->.
    eapply (run_task _ 0); [reflexivity|cbn [resume start account]; by rewrite Hfc|].
    eapply (run_task _ 0); [reflexivity|cbn [resume start account]; by rewrite Hrq|].
    eapply run_tick; [exact Hd|].
    eapply (run_task _ 0); [reflexivity| |].
    { system_norm. rewrite Qle_bool_refl. unfold begin_call. system_norm.
      rewrite Hsvc'. reflexivity. }
    eapply run_tick; [exact Htook|].
    destruct self as [tok lr fc rq]. cbn in Hfc, Hrq. subst fc rq.
    destruct rep;
      (eapply (run_task _ 0);
       [reflexivity
       |system_norm; rewrite Qle_bool_refl; reflexivity
       |system_norm; apply steps_refl]). }
  destruct rep as [url|e].
  - do 3 eexists. exists true. split; [reflexivity|]. by apply Hrun.
  - do 3 eexists. exists false. split; [reflexivity|]. by apply Hrun.
Qed.


Lemma steps_orderly self w calls s :
  unlocked self -> Forall (fun t => pending t = true) calls ->
  steps (start self w calls) s ->
  number holds_request (tasks s) = Nat.b2n (_request_lock (account s))
  /\ number holds_gate (tasks s) = Nat.b2n (_fc_lock (account s))
  /\ number in_flight (tasks s) <= 1
  /\ (forall i page wake,
        tasks s !! i = Some (Sleeping page wake) ->
        (last_run (account s) + 0.5 <= wake)%Q)
  /\ spaced (log s) = true
  /\ gated (log s) = true.
Proof.
  intros Hun Hp Hsteps.
  destruct (consistent_steps _ _ (consistent_start self w calls Hun Hp) Hsteps)
    as (Hrq & Hgt & Hsl & (pw & Hpw & _) & (gw & Hgw & _)).
  split; [done|]. split; [done|]. split.
  { pose proof (number_le in_flight holds_request (tasks s)
                  ltac:(by intros [])) as Hle.
    rewrite Hrq in Hle. destruct (_request_lock (account s)); cbn in Hle; lia. }
  split; [done|]. unfold spaced, gated. by rewrite Hpw, Hgw.
Qed.

Lemma play_steps ms s s' : play ms s = Some s' -> steps s s'.
Proof.
  revert s. induction ms as [|m ms IH]; intros s H; cbn [play] in H.
  - injection H as <-. apply steps_refl.
  - destruct (make m s) as [s1|] eqn:Hm; [|done].
    apply (steps_first s s1); [|by apply IH].
    destruct m as [d|i]; cbn [make] in Hm.
    + destruct (Qle_bool 0 d) eqn:Hd; [|done]. injection Hm as <-.
      apply step_tick. by apply Qle_bool_iff.
    + destruct (tasks s !! i) as [t|] eqn:Hi; [|done].
      destruct (resume i t (account s) (env s)) as [[[[t' self'] w'] mk]|] eqn:Hr;
        [|done].
      injection Hm as <-. by apply (step_task s i t).
Qed.

(** The request lock covers the [create_page] calls only: the
    [create_account] request of a [flood_wait] can be out at the same
    time as a [create_page] request on the same account. *)
Lemma create_account_not_under_request_lock :
  exists s url fin tok fin',
    steps page_and_reprovision s
    /\ tasks s = [InFlight (Ok url) fin; Creating (Ok tok) fin']
    /\ (clock (env s) < fin)%Q /\ (clock (env s) < fin')%Q.
Proof.
  destruct (play page_and_reprovision_schedule page_and_reprovision)
    as [s|] eqn:Hplay; [|by vm_compute in Hplay].
  pose proof (play_steps _ _ _ Hplay) as Hsteps.
  vm_compute in Hplay. injection Hplay as <-.
  do 5 eexists. split; [exact Hsteps|]. split; [reflexivity|].
  by split; vm_compute.
Qed.

End Locks.

(** C4, as the code has it. With the flood gate open and the request lock
    free, [create_page] sleeps [max(0.5 - (now - last_run), 0)] seconds and
    then starts its transport call, never earlier than 0.5s after
    [last_run]. When the transport call returned successfully (and took no
    negative time), [last_run] is the clock reading at its return, so the
    transport call of any later [create_page] on the account starts at least
    0.5s after the start of this one. On the event loop the call alone
    runs exactly so: it passes the gate, begins its transport call at that
    reading and ends it at the reading of its return. And whatever calls
    are made on the account and however the event loop schedules them:
    the request lock is held by exactly the one call that is sleeping or
    in flight, no two [create_page] transport calls are in flight at a
    time, a sleeping call wakes no earlier than 0.5s after [last_run],
    and in the log no transport call begins while another is in flight or
    less than 0.5s after the last successful one ended. Nothing is
    promised after a transport call that raised. *)
Theorem create_page_spacing (self : Telegraph) (page : method) (w : World) :
  _fc_lock self = false -> _request_lock self = false ->
  trace (create_page self page w).2
  = trace w ++ [EvSleep (Qmax (0.5 - (clock w - last_run self)) 0);
                EvRequest (transport_start self w) (page_request self page)]
  /\ (last_run self + 0.5 <= transport_start self w)%Q
  /\ (forall url took self1 w1,
        service w (served w) (page_request self page) = (Ok url, took) ->
        (0 <= took)%Q ->
        create_page self page w = (Done (Returned url), self1, w1) ->
        last_run self1 = clock w1
        /\ forall later w',
            last_run later = last_run self1 ->
            (transport_start self w + 0.5 <= transport_start later w')%Q)
  /\ (forall rep took,
        service w (served w) (page_request self page) = (rep, took) ->
        (0 <= took)%Q ->
        exists r self1 w1 ok,
          create_page self page w = (Done r, self1, w1)
          /\ steps (start self w [AtGate page])
                   {| account := self1; env := w1; tasks := [PageDone r];
                      log := [Passed 0 (clock w);
                              Began 0 (transport_start self w);
                              Ended 0 (clock w1) ok] |})
  /\ (forall calls s,
        Forall (fun t => pending t = true) calls ->
        steps (start self w calls) s ->
        number holds_request (tasks s) = Nat.b2n (_request_lock (account s))
        /\ number in_flight (tasks s) <= 1
        /\ (forall i page' wake,
              tasks s !! i = Some (Sleeping page' wake) ->
              (last_run (account s) + 0.5 <= wake)%Q)
        /\ spaced (log s) = true).
Proof.
  intros Hfc Hrq. split; [by apply create_page_trace|].
  split; [apply spacing_floor|]. split; [|split].
  - intros url took self1 w1 Hsvc Htook Hcp.
    rewrite create_page_free in Hcp by done.
    unfold send in Hcp. cbn zeta in Hcp.
    change (service (sleep (spacing self w) w)) with (service w) in Hcp.
    change (served (sleep (spacing self w) w)) with (served w) in Hcp.
    rewrite Hsvc in Hcp. injection Hcp as <- <-.
    split; [done|]. intros later w' Hlr.
    pose proof (spacing_floor later w') as Hfl. rewrite Hlr in Hfl.
    cbn [last_run set_last_run clock] in Hfl.
    set (t' := transport_start later w') in *.
    unfold transport_start. cbn [sleep clock] in *. lra.
  - intros rep took Hsvc Htook. by apply (create_page_alone self page w rep took).
  - intros calls s Hp Hsteps.
    destruct (steps_orderly self w calls s) as (H1 & _ & H3 & H4 & H5 & _);
      done.
Qed.

Lemma create_page_spacing_witness :
  _fc_lock recent_account = false /\ _request_lock recent_account = false
  /\ trace (create_page recent_account sample_page (world_at up_service 1000)).2
     = [EvSleep (Qmax (0.5 - (1000 - 999.8)) 0);
        EvRequest (transport_start recent_account (world_at up_service 1000))
                  (page_request recent_account sample_page)]
  /\ (999.8 + 0.5 <= transport_start recent_account (world_at up_service 1000))%Q
  /\ play [Resume 0; Resume 0; Resume 1; Resume 1] two_calls = None
  /\ exists s,
      play two_calls_schedule two_calls = Some s
      /\ log s = [Passed 0 1000; Passed 1 1000; Began 0 1000.3;
                  Ended 0 1000.40 true; Began 1 1000.900]
      /\ number in_flight (tasks s) <= 1
      /\ spaced (log s) = true.
Proof.
  pose (H := create_page_spacing recent_account sample_page
               (world_at up_service 1000%Q) eq_refl eq_refl).
  split; [reflexivity|]. split; [reflexivity|].
  split; [exact (proj1 H)|]. split; [exact (proj1 (proj2 H))|].
  split; [by vm_compute|].
  destruct (play two_calls_schedule two_calls) as [s|] eqn:Hplay;
    [|by vm_compute in Hplay].
  exists s. split; [done|]. split.
  { vm_compute in Hplay. by injection Hplay as <-. }
  pose proof (proj2 (proj2 (proj2 (proj2 H)))
                [AtGate sample_page; AtGate sample_page] s
                ltac:(by repeat constructor) (play_steps _ _ _ Hplay))
    as (_ & Hfl & _ & Hsp).
  by split.
Defined.

(** C4, as stated, fails: when the first transport call raises, [last_run]
    stays as it was and a second call on the same account starts its
    transport call at once (here 0.1s after the first one started). *)
Lemma failed_call_is_not_spaced : ~ min_spacing_as_specified.
Proof.
  intros H.
  specialize (H (Telegraph_init tok60) sample_page (world_at down_service 1000%Q)
                eq_refl eq_refl eq_refl).
  destruct (create_page (Telegraph_init tok60) sample_page
              (world_at down_service 1000%Q)) as [[o1 self1] w1] eqn:E1.
  destruct (create_page self1 sample_page w1) as [[o2 self2] w2] eqn:E2.
  vm_compute in E1. injection E1 as <- <- <-.
  vm_compute in E2. injection E2 as <- <- <-.
  specialize (H _ _ _ _ _ _ _ _ eq_refl eq_refl eq_refl).
  vm_compute in H. by apply H.
Qed.

(** C9. With the gate open and the lock free, a [create_page] whose
    transport call raises leaves the account exactly as it was, [last_run]
    included; one whose transport call returns changes [last_run] only, to
    the clock reading after the return. *)
Theorem create_page_last_run (self : Telegraph) (page : method) (w : World) :
  _fc_lock self = false -> _request_lock self = false ->
  (forall e took,
      service w (served w) (page_request self page) = (Fail e, took) ->
      exists w', create_page self page w = (Done (Raised e), self, w'))
  /\ (forall url took,
        service w (served w) (page_request self page) = (Ok url, took) ->
        exists w',
          create_page self page w
          = (Done (Returned url), set_last_run (clock w') self, w')
          /\ clock w' = (transport_start self w + took)%Q).
Proof.
  intros Hfc Hrq. rewrite create_page_free by done.
  unfold send, transport_start. cbn zeta.
  change (service (sleep (spacing self w) w)) with (service w).
  change (served (sleep (spacing self w) w)) with (served w).
  split.
  - intros e took ->. by eexists.
  - intros url took ->. by eexists.
Qed.

Lemma create_page_last_run_witness :
  _fc_lock (Telegraph_init tok60) = false
  /\ _request_lock (Telegraph_init tok60) = false
  /\ exists w',
      create_page (Telegraph_init tok60) sample_page (world_at down_service 1000)
      = (Done (Raised (NetworkError "ClientConnectionError")),
         Telegraph_init tok60, w').
Proof.
  split; [reflexivity|]. split; [reflexivity|].
  exact (proj1 (create_page_last_run (Telegraph_init tok60) sample_page
                  (world_at down_service 1000%Q) eq_refl eq_refl)
           (NetworkError "ClientConnectionError") 0.1%Q eq_refl).
Defined.




(** C6. On an account whose flood gate is already closed, [flood_wait]
    does nothing for any [retry_after]: no sleep, no request, the account
    and the world are as before. *)
Theorem flood_wait_closed_gate (self : Telegraph) (retry_after : Z) (w : World) :
  _fc_lock self = true ->
  flood_wait self retry_after w = (Returned tt, self, w).
Proof. intros Hfc. unfold flood_wait. by rewrite Hfc. Qed.

Lemma flood_wait_closed_gate_witness :
  _fc_lock gated_account = true
  /\ flood_wait gated_account 90 (world_at up_service 1000)
     = (Returned tt, gated_account, world_at up_service 1000).
Proof.
  split; [reflexivity|].
  exact (flood_wait_closed_gate gated_account 90%Z (world_at up_service 1000%Q) eq_refl).
Defined.

(** ** The pool at start-up *)

Section StartUp.

Lemma valid_false self : valid self = false <-> _accounts self = [].
Proof. unfold valid. by destruct (_accounts self). Qed.

Lemma send_service r w : service (send r w).2 = service w.
Proof. unfold send. by destruct (service w (served w) r). Qed.

Lemma send_failing r w :
  (forall n q, exists e took, service w n q = (Fail e, took)) ->
  exists e w', send r w = (Fail e, w') /\ service w' = service w.
Proof.
  intros Hdown. unfold send.
  destruct (Hdown (served w) r) as (e & took & ->). by do 2 eexists.
Qed.

Lemma init_one_failing tok accounts w :
  (forall n q, exists e took, service w n q = (Fail e, took)) ->
  exists w', init_one tok accounts w = (accounts, w') /\ service w' = service w.
Proof.
  intros Hdown. unfold init_one, validate, create_account, get_account_info.
  set (account := Telegraph_init (PyStr.strip tok)).
  set (w0 := replace_session account w).
  assert (Hdown0 : forall n q, exists e took, service w0 n q = (Fail e, took))
    by exact Hdown.
  destruct (negb (String.length (PyStr.strip tok) =? 60)).
  - destruct (send_failing (create_account_request account) w0 Hdown0)
      as (e & w1 & Hs & Hsvc).
    unfold create_account_request in Hs. rewrite Hs.
    destruct e; try by eexists.
    assert (Hdown1 : forall n q, exists e took, service w1 n q = (Fail e, took))
      by (by rewrite Hsvc).
    destruct (send_failing (create_account_request account) w1 Hdown1)
      as (e' & w2 & Hs' & Hsvc').
    unfold create_account_request in Hs'. rewrite Hs'.
    eexists. split; [done|]. by rewrite Hsvc'.
  - destruct (send_failing {| req_token := token account;
                              req_method := GetAccountInfo |} w0 Hdown0)
      as (e & w1 & Hs & Hsvc).
    rewrite Hs.
    destruct e; try by eexists.
    assert (Hdown1 : forall n q, exists e took, service w1 n q = (Fail e, took))
      by (by rewrite Hsvc).
    destruct (send_failing (create_account_request account) w1 Hdown1)
      as (e' & w2 & Hs' & Hsvc').
    unfold create_account_request in Hs'. rewrite Hs'.
    eexists. split; [done|]. by rewrite Hsvc'.
Qed.

Lemma init_failing toks accounts w :
  (forall n q, exists e took, service w n q = (Fail e, took)) ->
  exists w', init toks accounts w = (accounts, w').
Proof.
  revert w. induction toks as [|tok toks IH]; intros w Hdown; [by eexists|].
  cbn [init].
  destruct (init_one_failing tok accounts w Hdown) as (w1 & -> & Hsvc).
  apply IH. by rewrite Hsvc.
Qed.

End StartUp.

(** C8. A pool without accounts is not valid, and an empty credential
    list, or one whose every credential is dropped because the service
    fails every request, gives such a pool; the empty list does so without
    a transport call. [get_account] on it raises [TelegraphError] and
    changes nothing; the module-level set-up then leaves [apis] unset, and
    [TelegraphIfy(...)] raises [TelegraphError] before anything else; a
    [telegraph_ify] on such a pool raises it without a transport call. *)
Theorem empty_pool_fails_early (pool : APIs) :
  valid pool = false ->
  get_account pool = (Raised no_token, pool)
  /\ (forall w, APIs_init [] w = (empty_pool, w) /\ valid empty_pool = false)
  /\ (forall toks w,
        (forall n q, exists e took, service w n q = (Fail e, took)) ->
        valid (APIs_init toks w).1 = false)
  /\ (forall TELEGRAPH_TOKEN w,
        valid (APIs_init (PyStr.split "," TELEGRAPH_TOKEN) w).1 = false ->
        (bootstrap (Some TELEGRAPH_TOKEN) w).1 = None)
  /\ (forall w, bootstrap None w = (None, w) /\ bootstrap (Some "") w = (None, w))
  /\ (forall str_soup xml title link feed_title author,
        TelegraphIfy_init str_soup None xml title link feed_title author
        = Raised no_token)
  /\ (forall fuel doc w,
        retries doc < 3 ->
        telegraph_ify (S fuel) doc {| apis := Some pool; world := w |}
        = (Done (Raised no_token), doc, {| apis := Some pool; world := w |})).
Proof.
  intros Hv. apply valid_false in Hv.
  assert (Hget : get_account pool = (Raised no_token, pool))
    by (unfold get_account; by rewrite Hv).
  split; [exact Hget|]. split; [done|]. split.
  { intros toks w Hdown. unfold APIs_init.
    destruct (init_failing toks [] w Hdown) as (w' & ->). done. }
  split.
  { intros tok w Hinv. unfold bootstrap.
    destruct (PyStr.truthy (Some tok)); [|done].
    destruct (APIs_init (PyStr.split "," tok) w) as [p w'].
    cbn [fst] in Hinv. by rewrite Hinv. }
  split; [done|]. split; [done|].
  intros fuel doc w Hr. cbn [telegraph_ify apis].
  destruct (Nat.leb_spec 3 (retries doc)); [lia|].
  by rewrite Hget.
Qed.

Lemma empty_pool_fails_early_witness :
  valid empty_pool = false
  /\ get_account empty_pool = (Raised no_token, empty_pool).
Proof.
  split; [reflexivity|].
  exact (proj1 (empty_pool_fails_early empty_pool eq_refl)).
Defined.

(** ** Credentials are stripped *)

Section Strip.

Import PyStr.

Lemma append_cons c (s t : string) : String c s +:+ t = String c (s +:+ t).
Proof. reflexivity. Qed.

Lemma append_nil (t : string) : "" +:+ t = t.
Proof. reflexivity. Qed.

Lemma lstrip_spaces s : all_space s = true -> lstrip s = "".
Proof.
  induction s as [|c s IH]; [done|]. cbn [all_space lstrip].
  intros [Hc Hs]%andb_prop. rewrite Hc. by apply IH.
Qed.

Lemma rstrip_spaces s : all_space s = true -> rstrip s = "".
Proof.
  induction s as [|c s IH]; [done|]. cbn [all_space rstrip].
  intros [Hc Hs]%andb_prop. by rewrite IH, Hc.
Qed.

Lemma lstrip_pad l s : all_space l = true -> lstrip (l +:+ s) = lstrip s.
Proof.
  induction l as [|c l IH]; [done|]. rewrite append_cons. cbn [all_space lstrip].
  intros [Hc Hl]%andb_prop. rewrite Hc. by apply IH.
Qed.

Lemma rstrip_pad s r : all_space r = true -> rstrip (s +:+ r) = rstrip s.
Proof.
  intros Hr. induction s as [|c s IH].
  - rewrite append_nil. by rewrite rstrip_spaces.
  - rewrite append_cons. cbn [rstrip]. by rewrite IH.
Qed.

Lemma strip_pad_r s r : all_space r = true -> strip (s +:+ r) = strip s.
Proof.
  intros Hr. unfold strip. induction s as [|c s IH].
  - rewrite append_nil. by rewrite lstrip_spaces.
  - rewrite append_cons. cbn [lstrip]. destruct (isspace c); [exact IH|].
    rewrite <- append_cons. by apply rstrip_pad.
Qed.

Lemma strip_pad l s r :
  all_space l = true -> all_space r = true ->
  strip (l +:+ s +:+ r) = strip s.
Proof.
  intros Hl Hr. unfold strip at 1. rewrite lstrip_pad by done.
  by apply strip_pad_r.
Qed.

Lemma lstrip_rstrip s : lstrip (rstrip (lstrip s)) = rstrip (lstrip s).
Proof.
  induction s as [|c s IH]; [done|]. cbn [lstrip].
  destruct (isspace c) eqn:Hc; [exact IH|].
  cbn [rstrip]. destruct (rstrip s); rewrite ?Hc; cbn [lstrip]; by rewrite Hc.
Qed.

Lemma rstrip_idem s : rstrip (rstrip s) = rstrip s.
Proof.
  induction s as [|c s IH]; [done|]. cbn [rstrip].
  destruct (rstrip s) as [|c' s'] eqn:E.
  - destruct (isspace c) eqn:Hc; [done|]. cbn [rstrip]. by rewrite Hc.
  - cbn [rstrip]. cbn [rstrip] in IH. by rewrite IH.
Qed.

Lemma strip_idem s : strip (strip s) = strip s.
Proof. unfold strip. by rewrite lstrip_rstrip, rstrip_idem. Qed.

Lemma init_one_strip tok accounts w :
  init_one tok accounts w = init_one (strip tok) accounts w.
Proof. unfold init_one. by rewrite strip_idem. Qed.

Lemma init_same_credentials toks toks' :
  Forall2 same_credential toks toks' ->
  forall accounts w, init toks accounts w = init toks' accounts w.
Proof.
  induction 1 as [|a b toks toks' Hab _ IH]; intros accounts w; [done|].
  cbn [init]. rewrite (init_one_strip a), (init_one_strip b), Hab.
  destruct (init_one (strip b) accounts w) as [accounts' w']. apply IH.
Qed.

Lemma create_account_trace a w :
  trace (create_account a w).2
  = trace w ++ [EvRequest (clock w) (create_account_request a)].
Proof.
  unfold create_account, send, create_account_request.
  by destruct (service w (served w) _) as [[p|e] took].
Qed.

Lemma get_account_info_trace a w :
  trace (get_account_info a w).2
  = trace w ++ [EvRequest (clock w)
                  {| req_token := token a; req_method := GetAccountInfo |}].
Proof.
  unfold get_account_info, send.
  by destruct (service w (served w) _) as [[p|e] took].
Qed.

Lemma validate_trace a w :
  exists rest,
    trace (validate (token a) a w).2
    = trace w ++ [EvRequest (clock w) (first_request (token a))] ++ rest.
Proof.
  unfold validate, first_request.
  destruct (String.length (token a) =? 60); cbn [negb].
  - pose proof (get_account_info_trace a w) as H.
    destruct (get_account_info a w) as [r' w']. exists []. exact H.
  - pose proof (create_account_trace a w) as H.
    destruct (create_account a w) as [[r a'] w1]. cbn [snd] in H.
    destruct r as [u|e]; [|by exists []].
    pose proof (get_account_info_trace a' w1) as H'.
    destruct (get_account_info a' w1) as [r' w']. cbn [snd] in *.
    eexists [_]. rewrite H', H. by rewrite <- app_assoc.
Qed.

Lemma init_one_trace tok accounts w :
  exists rest,
    trace (init_one tok accounts w).2
    = trace w ++ [EvReplaceSession (strip tok);
                  EvRequest (clock w) (first_request (strip tok))] ++ rest.
Proof.
  unfold init_one.
  set (a := Telegraph_init (strip tok)). set (w0 := replace_session a w).
  destruct (validate_trace a w0) as [rest H].
  change (token a) with (strip tok) in H.
  change (trace w0) with (trace w ++ [EvReplaceSession (strip tok)]) in H.
  change (clock w0) with (clock w) in H.
  destruct (validate (strip tok) a w0) as [[r a'] w1]. cbn [snd] in H.
  destruct r as [u|e].
  - exists rest. cbn [snd]. by rewrite H, <- app_assoc.
  - destruct e; try (exists rest; cbn [snd]; by rewrite H, <- app_assoc).
    pose proof (create_account_trace a' w1) as H'.
    destruct (create_account a' w1) as [[r' a''] w2]. cbn [snd] in H'.
    exists (rest ++ [EvRequest (clock w1) (create_account_request a')]).
    destruct r'; cbn [snd]; rewrite H', H; by rewrite <- !app_assoc.
Qed.

Lemma lstrip_bare s : starts_bare s = true -> lstrip s = s.
Proof.
  destruct s as [|c s]; [done|]. cbn [starts_bare lstrip].
  by destruct (isspace c).
Qed.

Lemma rstrip_bare s : ends_bare s = true -> rstrip s = s.
Proof.
  induction s as [|c s IH]; [done|]. cbn [ends_bare rstrip].
  destruct s as [|c' s'].
  - cbn [rstrip]. by destruct (isspace c).
  - intros H. by rewrite (IH H).
Qed.

Lemma strip_bare s : bare s = true -> strip s = s.
Proof.
  intros [Hs He]%andb_prop. unfold strip.
  by rewrite (lstrip_bare s Hs), (rstrip_bare s He).
Qed.

Lemma init_one_confirmed tok accounts w info took :
  String.length (strip tok) = 60 ->
  service w (served w)
          {| req_token := strip tok; req_method := GetAccountInfo |}
  = (Ok info, took) ->
  (init_one tok accounts w).1 = accounts ++ [Telegraph_init (strip tok)].
Proof.
  intros Hlen Hsvc.
  unfold init_one, validate, get_account_info, send.
  rewrite Hlen. change (Nat.eqb 60 60) with true. cbn [negb].
  cbn [replace_session service served token Telegraph_init].
  by rewrite Hsvc.
Qed.

End Strip.

(** C10. [init] strips every configured credential before anything else:
    the account is set up with the stripped string, and the first request
    is chosen by the length of the stripped string (account info when it is
    60, a new account otherwise). So a credential written with whitespace
    around it is set up exactly as the bare credential, and two lists
    whose entries agree after stripping initialise the same pool. For a
    credential [tok] that itself neither starts nor ends with whitespace,
    the padded entry denotes [tok]: the session is replaced and the first
    request is sent under [tok], the length that is checked is that of
    [tok], and when [tok] has 60 characters and the service confirms it,
    the account taken into the pool carries [tok]. *)
Theorem init_strips_credentials (l r tok : string) (accounts : list Telegraph)
        (w : World) :
  PyStr.all_space l = true -> PyStr.all_space r = true ->
  same_credential (l +:+ tok +:+ r) tok
  /\ init_one (l +:+ tok +:+ r) accounts w = init_one tok accounts w
  /\ (exists rest,
        trace (init_one (l +:+ tok +:+ r) accounts w).2
        = trace w ++ [EvReplaceSession (PyStr.strip tok);
                      EvRequest (clock w) (first_request (PyStr.strip tok))]
                  ++ rest)
  /\ (forall toks toks',
        Forall2 same_credential toks toks' ->
        init toks accounts w = init toks' accounts w)
  /\ (bare tok = true ->
      PyStr.strip (l +:+ tok +:+ r) = tok
      /\ (exists rest,
            trace (init_one (l +:+ tok +:+ r) accounts w).2
            = trace w ++ [EvReplaceSession tok;
                          EvRequest (clock w) (first_request tok)] ++ rest)
      /\ (String.length tok = 60 ->
          first_request tok = account_info_request tok)
      /\ (String.length tok <> 60 ->
          first_request tok = new_account_request tok)
      /\ (forall info took,
            String.length tok = 60 ->
            service w (served w) (account_info_request tok) = (Ok info, took) ->
            (init_one (l +:+ tok +:+ r) accounts w).1
            = accounts ++ [Telegraph_init tok])).
Proof.
  intros Hl Hr.
  assert (Hsame : same_credential (l +:+ tok +:+ r) tok)
    by (by apply strip_pad).
  assert (Hone : init_one (l +:+ tok +:+ r) accounts w = init_one tok accounts w).
  { by rewrite (init_one_strip (l +:+ tok +:+ r)), Hsame, <- init_one_strip. }
  split; [exact Hsame|]. split; [exact Hone|].
  split.
  { rewrite <- Hsame. apply init_one_trace. }
  split.
  { intros toks toks' H. by apply init_same_credentials. }
  intros Hbare. pose proof (strip_bare tok Hbare) as Htok.
  split; [by rewrite Hsame|]. split.
  { rewrite Hone. pose proof (init_one_trace tok accounts w) as Ht.
    by rewrite Htok in Ht. }
  unfold first_request, account_info_request, new_account_request.
  split.
  { intros Hlen. by rewrite Hlen. }
  split.
  { intros Hlen. by destruct (Nat.eqb_spec (String.length tok) 60). }
  intros info took Hlen Hsvc. rewrite Hone.
  pose proof (init_one_confirmed tok accounts w info took) as Hc.
  rewrite Htok in Hc. by apply Hc.
Qed.

Lemma init_strips_credentials_witness :
  PyStr.all_space "  " = true /\ PyStr.all_space " " = true
  /\ bare tok60 = true
  /\ PyStr.strip ("  " +:+ tok60 +:+ " ") = tok60
  /\ (init_one ("  " +:+ tok60 +:+ " ") [] (world_at up_service 1000)).1
     = [Telegraph_init tok60].
Proof.
  pose (H := init_strips_credentials "  " " " tok60 []
               (world_at up_service 1000%Q) eq_refl eq_refl).
  split; [reflexivity|]. split; [reflexivity|]. split; [reflexivity|].
  split.
  - exact (proj1 (proj2 (proj2 (proj2 (proj2 H))) eq_refl)).
  - exact (proj2 (proj2 (proj2 (proj2
             (proj2 (proj2 (proj2 (proj2 H))) eq_refl))))
             "RSStT" 0.1%Q eq_refl eq_refl).
Defined.

(** ** The publish method *)

Section Publish.

Lemma get_account_single :
  get_account one_account_pool = (Returned 0, one_account_pool).
Proof. reflexivity. Qed.

Lemma attempts_snoc_sleep w d ev :
  is_create_page ev = true ->
  length (List.filter is_create_page ((trace w ++ [EvSleep d]) ++ [ev]))
  = S (attempts w).
Proof.
  intros H. unfold attempts. rewrite !List.filter_app, !length_app.
  cbn [List.filter is_create_page]. rewrite H. cbn. lia.
Qed.

(** One failed attempt after another: with the service down, the single
    account untouched and [retries] below 3, [telegraph_ify] uses up any
    recursion budget and never leaves through [OverflowError]. *)
Lemma telegraph_ify_service_down fuel doc w :
  retries doc < 3 ->
  service w = down_service ->
  exists w',
    telegraph_ify fuel doc {| apis := Some one_account_pool; world := w |}
    = (OutOfFuel, doc, {| apis := Some one_account_pool; world := w' |})
    /\ service w' = down_service
    /\ attempts w' = attempts w + fuel.
Proof.
  intros Hr. revert w. induction fuel as [|fuel IH]; intros w Hsvc.
  - exists w. cbn. split; [done|]. split; [done|lia].
  - cbn [telegraph_ify apis world].
    destruct (Nat.leb_spec 3 (retries doc)); [lia|].
    rewrite get_account_single.
    change (_accounts one_account_pool !! 0) with (Some (Telegraph_init tok60)).
    cbn match.
    rewrite create_page_free by done.
    unfold send. cbn zeta.
    change (service (sleep (spacing (Telegraph_init tok60) w) w)) with (service w).
    rewrite Hsvc. unfold down_service at 1.
    destruct (Nat.ltb_spec (retries doc) 3); [|lia].
    change (put_account 0 (Telegraph_init tok60) one_account_pool)
      with one_account_pool.
    match goal with
    | |- context [telegraph_ify fuel doc {| apis := _; world := ?w1 |}] =>
        destruct (IH w1) as (w' & -> & Hsvc' & Hatt); [reflexivity|]
    end.
    exists w'. split; [done|]. split; [done|].
    rewrite Hatt. unfold attempts at 1. cbn [trace sleep].
    rewrite attempts_snoc_sleep by done. lia.
Qed.

End Publish.

(** C1, on the code. A publish on a pool of one account whose every
    transport call raises a connection error: whatever the recursion
    budget, every level of the recursion makes one more attempt,
    [retries] is still 0, and the call has not raised [OverflowError] (nor
    anything else); four attempts are made with a budget of four. *)
Theorem network_errors_retry_without_bound (fuel : nat) :
  exists w,
    telegraph_ify fuel sample_doc down_state
    = (OutOfFuel, sample_doc, {| apis := Some one_account_pool; world := w |})
    /\ retries sample_doc = 0
    /\ attempts w = fuel
    /\ attempts (telegraph_ify 4 sample_doc down_state).2 .(world) = 4.
Proof.
  destruct (telegraph_ify_service_down fuel sample_doc
              (world_at down_service 1000%Q)) as (w & H & _ & Hatt);
    [cbn; lia|done|].
  exists w. split; [exact H|]. split; [done|]. split; [exact Hatt|].
  by vm_compute.
Qed.

(** C2, on the code. Without a source link ([None] or the empty string)
    the HTML content of the document is the empty string, whatever the
    sanitized markup is: the body and the footer are lost. With a link it
    is the serialized sanitized markup, the footer and the Source link. *)
Theorem html_content_without_link_is_empty
        (str_soup : soup -> string) (pool : APIs) (xml : soup)
        (title feed_title author : option string) :
  (exists doc,
      TelegraphIfy_init str_soup (Some pool) xml title None feed_title author
      = Returned doc
      /\ telegraph_html_content doc = "")
  /\ (exists doc,
        TelegraphIfy_init str_soup (Some pool) xml title (Some "")
                          feed_title author
        = Returned doc
        /\ telegraph_html_content doc = "")
  /\ (exists doc,
        TelegraphIfy_init str_soup (Some pool) xml title
                          (Some "https://example.com/post") feed_title author
        = Returned doc
        /\ telegraph_html_content doc
           = str_soup (sanitize_loop xml) +:+ footer
             +:+ "<br><br><a href='https://example.com/post'>Source</a>").
Proof.
  unfold TelegraphIfy_init.
  repeat split; (destruct (match feed_title with Some _ => _ | None => _ end)
    as [t_author t_author_url]; eexists; split; [reflexivity|done]).
Qed.

(** * Further properties *)

(** ** What the sanitizer keeps and what it drops *)

Section SanitizerContent.

Lemma tags_app f1 f2 : tags (f1 ++ f2) = tags f1 ++ tags f2.
Proof. apply flat_map_app. Qed.

Lemma texts_app f1 f2 : texts (f1 ++ f2) = texts f1 ++ texts f2.
Proof. apply flat_map_app. Qed.

Lemma sanitize_tags f :
  tags (sanitize f)
  = map keep_allowed_attrs (List.filter allowed_tag (tags f)).
Proof.
  induction f as [| s f IH | j nm attrs ch f IHch IH] using soup_ind2.
  - done.
  - exact IH.
  - rewrite sanitize_cons, tags_app, IH.
    change (tags (Tag j nm attrs ch :: f))
      with ((nm, attrs) :: tags ch ++ tags f).
    cbn [List.filter]. rewrite List.filter_app.
    change (allowed_tag (nm, attrs)) with (mem nm TELEGRAPH_ALLOWED_TAGS).
    cbn [sanitize_node]. fold (sanitize ch).
    destruct (mem nm TELEGRAPH_ALLOWED_TAGS).
    + change (tags [Tag j nm (strip_attrs attrs) (sanitize ch)])
        with ((nm, strip_attrs attrs) :: tags (sanitize ch) ++ []).
      cbn [map]. rewrite List.map_app, app_nil_r, IHch. done.
    + by rewrite List.map_app, IHch.
Qed.

Lemma sanitize_texts f : texts (sanitize f) = texts f.
Proof.
  induction f as [| s f IH | j nm attrs ch f IHch IH] using soup_ind2.
  - done.
  - change (texts (sanitize (Text s :: f))) with (s :: texts (sanitize f)).
    by rewrite IH.
  - rewrite sanitize_cons, texts_app, IH.
    change (texts (Tag j nm attrs ch :: f)) with (texts ch ++ texts f).
    f_equal. cbn [sanitize_node]. fold (sanitize ch).
    destruct (mem nm TELEGRAPH_ALLOWED_TAGS); [|exact IHch].
    change (texts [Tag j nm (strip_attrs attrs) (sanitize ch)])
      with (texts (sanitize ch) ++ []).
    by rewrite app_nil_r.
Qed.

Lemma strip_attrs_allowed attrs : forallb allowed_attr (strip_attrs attrs) = true.
Proof.
  unfold strip_attrs. induction attrs as [|kv attrs IH]; [done|].
  cbn [List.filter]. fold (allowed_attr kv).
  destruct (allowed_attr kv) eqn:E; [|exact IH].
  cbn [forallb]. by rewrite E, IH.
Qed.

Lemma strip_attrs_clean attrs :
  forallb allowed_attr attrs = true -> strip_attrs attrs = attrs.
Proof.
  unfold strip_attrs. induction attrs as [|kv attrs IH]; [done|].
  cbn [forallb List.filter]. intros [Hkv Hrest]%andb_prop.
  fold (allowed_attr kv). rewrite Hkv. f_equal. by apply IH.
Qed.

Lemma sanitize_clean_id f : clean f = true -> sanitize f = f.
Proof.
  unfold clean.
  induction f as [| s f IH | j nm attrs ch f IHch IH] using soup_ind2.
  - done.
  - intros H. change (sanitize (Text s :: f)) with (Text s :: sanitize f).
    f_equal. by apply IH.
  - change (tags (Tag j nm attrs ch :: f))
      with ((nm, attrs) :: tags ch ++ tags f).
    cbn [forallb]. rewrite forallb_app.
    intros [[Hnm Hattrs]%andb_prop [Hch Hf]%andb_prop]%andb_prop.
    unfold allowed_tag in Hnm. cbn [fst snd] in Hnm, Hattrs.
    rewrite sanitize_cons. cbn [sanitize_node]. fold (sanitize ch).
    rewrite Hnm, strip_attrs_clean, IHch, IH by done. done.
Qed.

End SanitizerContent.

(** X1. On a document whose tag objects are distinct, the tags that are
    left after the loop are exactly the tags with an allowed name, in
    document order, each with exactly its allowed attributes (values
    untouched); so the result is clean: no disallowed tag and no
    disallowed attribute is left. *)
Theorem sanitize_loop_tags (f : soup) :
  well_formed f ->
  tags (sanitize_loop f)
  = map keep_allowed_attrs (List.filter allowed_tag (tags f))
  /\ clean (sanitize_loop f) = true.
Proof.
  intros Hwf. rewrite (sanitize_loop_spec f Hwf).
  split; [apply sanitize_tags|].
  unfold clean. rewrite sanitize_tags.
  induction (tags f) as [|t l IH]; [done|].
  cbn [List.filter]. destruct (allowed_tag t) eqn:E; [|exact IH].
  cbn [map forallb]. rewrite IH, andb_true_r.
  unfold clean_tag, keep_allowed_attrs, allowed_tag in *. cbn [fst snd].
  by rewrite E, strip_attrs_allowed.
Qed.

Lemma sanitize_loop_tags_witness :
  well_formed example_document
  /\ tags (sanitize_loop example_document) = [("b", [])].
Proof.
  split; [exact example_document_well_formed|].
  exact (proj1 (sanitize_loop_tags example_document example_document_well_formed)).
Defined.

(** X2. The loop loses no text and invents none: the strings of the
    document, in document order, are the same before and after, also
    those inside tags that are unwrapped. *)
Theorem sanitize_loop_texts (f : soup) :
  well_formed f -> texts (sanitize_loop f) = texts f.
Proof.
  intros Hwf. rewrite (sanitize_loop_spec f Hwf). apply sanitize_texts.
Qed.

Lemma sanitize_loop_texts_witness :
  well_formed example_document
  /\ texts (sanitize_loop example_document) = ["x"; "ok"].
Proof.
  split; [exact example_document_well_formed|].
  exact (sanitize_loop_texts example_document example_document_well_formed).
Defined.

(** X3. A document that has only allowed tags with only allowed
    attributes goes through the loop unchanged. *)
Theorem sanitize_loop_clean_unchanged (f : soup) :
  well_formed f -> clean f = true -> sanitize_loop f = f.
Proof.
  intros Hwf Hclean. rewrite (sanitize_loop_spec f Hwf).
  by apply sanitize_clean_id.
Qed.

Lemma sanitize_loop_clean_unchanged_witness :
  well_formed example_sanitized /\ clean example_sanitized = true
  /\ sanitize_loop example_sanitized = example_sanitized.
Proof.
  assert (Hwf : well_formed example_sanitized)
    by (unfold well_formed; by apply (bool_decide_unpack _)).
  split; [exact Hwf|]. split; [reflexivity|].
  exact (sanitize_loop_clean_unchanged example_sanitized Hwf eq_refl).
Defined.

(** ** The pool that start-up builds *)

Section PoolSetUp.

Lemma create_account_fresh a w : fresh a -> fresh (create_account a w).1.2.
Proof.
  unfold create_account, send.
  by destruct (service w (served w) _) as [[tok|e] took].
Qed.

Lemma validate_fresh tok a w : fresh a -> fresh (validate tok a w).1.2.
Proof.
  intros Ha. unfold validate.
  destruct (negb (String.length tok =? 60)).
  - pose proof (create_account_fresh a w Ha) as H.
    destruct (create_account a w) as [[r a'] w1]. cbn [fst snd] in H.
    destruct r; [|done]. by destruct (get_account_info a' w1).
  - by destruct (get_account_info a w).
Qed.

Lemma init_one_appends tok accounts w :
  exists added,
    (init_one tok accounts w).1 = accounts ++ added
    /\ length added <= 1
    /\ Forall fresh added.
Proof.
  unfold init_one.
  set (a := Telegraph_init (PyStr.strip tok)). set (w0 := replace_session a w).
  assert (Ha : fresh a) by done.
  pose proof (validate_fresh (PyStr.strip tok) a w0 Ha) as Hv.
  destruct (validate (PyStr.strip tok) a w0) as [[r a'] w1]. cbn [fst snd] in Hv.
  destruct r as [u|e].
  - exists [a']. cbn [fst length]. split; [done|]. split; [lia|]. by constructor.
  - pose proof (create_account_fresh a' w1 Hv) as Hc.
    destruct e; try (exists []; cbn [fst length]; rewrite app_nil_r;
                     split; [done|]; split; [lia|constructor]).
    destruct (create_account a' w1) as [[r' a''] w2]. cbn [fst snd] in Hc.
    destruct r'.
    + exists [a'']. cbn [fst length]. split; [done|]. split; [lia|].
      by constructor.
    + exists []. cbn [fst length]. rewrite app_nil_r.
      split; [done|]. split; [lia|constructor].
Qed.

Lemma init_appends toks accounts w :
  exists added,
    (init toks accounts w).1 = accounts ++ added
    /\ length added <= length toks
    /\ Forall fresh added.
Proof.
  revert accounts w. induction toks as [|tok toks IH]; intros accounts w.
  - exists []. cbn [init fst length]. rewrite app_nil_r.
    split; [done|]. split; [lia|constructor].
  - cbn [init].
    destruct (init_one_appends tok accounts w) as (add1 & H1 & Hl1 & Hf1).
    destruct (init_one tok accounts w) as [accounts1 w1]. cbn [fst] in H1.
    destruct (IH accounts1 w1) as (add2 & H2 & Hl2 & Hf2).
    exists (add1 ++ add2). rewrite H2, H1, <- app_assoc.
    split; [done|]. split.
    + rewrite length_app. cbn [length]. lia.
    + by apply Forall_app.
Qed.

End PoolSetUp.

(** X4. [init] only ever appends: the accounts already in the pool stay
    where they are, at most one account is added per configured
    credential, and every account added is as the constructor left it
    ([last_run] 0, flood gate open, request lock free). *)
Theorem init_only_appends (toks : list string) (accounts : list Telegraph)
        (w : World) :
  exists added,
    (init toks accounts w).1 = accounts ++ added
    /\ length added <= length toks
    /\ Forall fresh added.
Proof. apply init_appends. Qed.

(** X5. A credential that is 60 characters long after stripping and that
    the service confirms is taken into the pool as it is, with exactly one
    request (account info) and no new account created. *)
Theorem init_one_keeps_confirmed (tok : string) (accounts : list Telegraph)
        (w : World) (info : string) (took : Q) :
  String.length (PyStr.strip tok) = 60 ->
  service w (served w) (account_info_request (PyStr.strip tok)) = (Ok info, took) ->
  (init_one tok accounts w).1 = accounts ++ [Telegraph_init (PyStr.strip tok)]
  /\ trace (init_one tok accounts w).2
     = trace w ++ [EvReplaceSession (PyStr.strip tok);
                   EvRequest (clock w) (account_info_request (PyStr.strip tok))].
Proof.
  intros Hlen Hsvc.
  unfold init_one, validate, get_account_info, send.
  rewrite Hlen. cbn [Nat.eqb negb].
  change (Nat.eqb 60 60) with true. cbn [negb].
  cbn [replace_session service served token Telegraph_init].
  unfold account_info_request in Hsvc. rewrite Hsvc. cbn [fst snd trace clock].
  split; [done|]. cbn [replace_session trace clock token Telegraph_init].
  by rewrite <- app_assoc.
Qed.

Lemma init_one_keeps_confirmed_witness :
  String.length (PyStr.strip (" " +:+ tok60)) = 60
  /\ (init_one (" " +:+ tok60) [] (world_at up_service 1000)).1
     = [Telegraph_init tok60].
Proof.
  split; [reflexivity|].
  exact (proj1 (init_one_keeps_confirmed (" " +:+ tok60) []
                  (world_at up_service 1000%Q) "RSStT" 0.1%Q eq_refl eq_refl)).
Defined.

(** X6. When the first request for a credential is refused: after a
    [TelegraphError] exactly one new account is asked for, and the account
    joins the pool with the issued credential if that succeeds and is
    dropped if it fails; after any other exception the account is dropped
    at once, no second request is sent. *)
Theorem init_one_refused (tok : string) (accounts : list Telegraph) (w : World)
        (e : exn) (took : Q) :
  service w (served w) (first_request (PyStr.strip tok)) = (Fail e, took) ->
  (is_telegraph_error e = false ->
   (init_one tok accounts w).1 = accounts
   /\ served (init_one tok accounts w).2 = S (served w))
  /\ (is_telegraph_error e = true ->
      served (init_one tok accounts w).2 = S (S (served w))
      /\ (forall issued took',
            service w (S (served w)) (new_account_request (PyStr.strip tok))
            = (Ok issued, took') ->
            (init_one tok accounts w).1 = accounts ++ [Telegraph_init issued])
      /\ (forall e' took',
            service w (S (served w)) (new_account_request (PyStr.strip tok))
            = (Fail e', took') ->
            (init_one tok accounts w).1 = accounts)).
Proof.
  intros Hsvc.
  unfold init_one, validate, create_account, get_account_info, send.
  unfold first_request in Hsvc. unfold new_account_request.
  unfold replace_session, Telegraph_init. cbn [service served token].
  destruct (String.length (PyStr.strip tok) =? 60);
    cbn [negb service served token];
    rewrite Hsvc; cbn [service served token set_token];
    (split; [intros He; by destruct e|]);
    (intros He; destruct e; try discriminate He);
    destruct (service w (S (served w)) _) as [[issued|e'] took'];
    cbn [fst snd served]; (split; [done|]);
    (split; [by intros ? ? [=]; subst | by intros ? ? [=]]).
Qed.

Lemma init_one_refused_witness :
  service (world_at down_service 1000) 0 (first_request (PyStr.strip tok60))
  = (Fail (NetworkError "ClientConnectionError"), 0.1%Q)
  /\ is_telegraph_error (NetworkError "ClientConnectionError") = false
  /\ (init_one tok60 [] (world_at down_service 1000)).1 = [].
Proof.
  split; [reflexivity|]. split; [reflexivity|].
  exact (proj1 (proj1 (init_one_refused tok60 [] (world_at down_service 1000%Q)
                         (NetworkError "ClientConnectionError") 0.1%Q eq_refl)
                      eq_refl)).
Defined.

(** X7. Whenever the module-level set-up leaves [apis] set, it is a valid
    pool: it has at least one and at most as many accounts as the
    configuration has comma-separated entries, its cursor is 0, all its
    accounts are unused and unlocked, and the first [get_account] returns
    the first account. *)
Theorem bootstrap_pool_valid (TELEGRAPH_TOKEN : option string) (w : World)
        (pool : APIs) :
  (bootstrap TELEGRAPH_TOKEN w).1 = Some pool ->
  valid pool = true
  /\ _curr_id pool = 0%Z
  /\ (exists s, TELEGRAPH_TOKEN = Some s /\ s <> ""
                /\ tokens pool = PyStr.split "," s
                /\ 1 <= length (_accounts pool) <= length (PyStr.split "," s))
  /\ Forall fresh (_accounts pool)
  /\ (get_account pool).1 = Returned 0.
Proof.
  unfold bootstrap. destruct TELEGRAPH_TOKEN as [s|]; [|done].
  destruct (PyStr.truthy (Some s)) eqn:Ht; [|done].
  unfold APIs_init.
  destruct (init_appends (PyStr.split "," s) [] w) as (added & Hadd & Hlen & Hfresh).
  destruct (init (PyStr.split "," s) [] w) as [accounts w']. cbn [fst] in Hadd.
  cbn [app] in Hadd. subst accounts.
  unfold valid. cbn [_accounts].
  destruct added as [|a added]; [done|].
  cbn [fst]. intros [= <-]. cbn [_accounts _curr_id tokens].
  split; [done|]. split; [done|]. split.
  { exists s. split; [done|]. split.
    - intros ->. discriminate Ht.
    - split; [done|]. cbn [length] in *. lia. }
  split; [done|].
  unfold get_account. cbn [_accounts _curr_id length fst].
  destruct (Z.ltb_spec 0 (Z.of_nat (S (length added)))); [done|lia].
Qed.

Lemma bootstrap_pool_valid_witness :
  exists pool,
    (bootstrap (Some tok60) (world_at up_service 1000)).1 = Some pool
    /\ valid pool = true.
Proof.
  eexists. split; [reflexivity|].
  exact (proj1 (bootstrap_pool_valid (Some tok60) (world_at up_service 1000%Q)
                  _ eq_refl)).
Defined.

(** ** The recursion of [telegraph_ify] *)

Section Rounds.

Lemma telegraph_ify_round fuel self st :
  telegraph_ify (S fuel) self st
  = match attempt self st with
    | Finished o st' => (o, self, st')
    | RetryNetwork st' => telegraph_ify fuel self st'
    | RetryFlood i retry_after st' =>
        gathered i retry_after (telegraph_ify fuel (bump self) st')
    end.
Proof.
  cbn [telegraph_ify]. unfold attempt, gathered.
  destruct (3 <=? retries self); [done|].
  destruct (apis st) as [pool|]; [|done].
  destruct (get_account pool) as [[i|e] pool']; [|done].
  destruct (_accounts pool' !! i) as [a|]; [|done].
  destruct (create_page a (page_of self) (world st)) as [[o a'] w'].
  destruct o as [[url|e]| |]; try done.
  destruct e; try done.
  - destruct (PyStr.startswith "FLOOD_WAIT_" msg); [|done].
    destruct (PyStr.int _); [|done].
    destruct (telegraph_ify fuel (bump self) _) as [[o' self'] st'].
    destruct o' as [r| |]; try done.
  - by destruct (retries self <? 3).
Qed.

(** *** Traces *)

Lemma page_tokens_app l k : page_tokens (l ++ k) = page_tokens l ++ page_tokens k.
Proof.
  induction l as [|ev l IH]; [done|].
  destruct ev as [d|t [tok [| |]]|tok]; cbn [app page_tokens]; by rewrite IH.
Qed.

Lemma pages_app l k : pages (l ++ k) = pages l ++ pages k.
Proof.
  induction l as [|ev l IH]; [done|].
  destruct ev as [d|t [tok [| |]]|tok]; cbn [app pages]; by rewrite IH.
Qed.

Lemma attempts_app_trace w l :
  length (List.filter is_create_page (trace w ++ l))
  = attempts w + length (List.filter is_create_page l).
Proof. unfold attempts. by rewrite List.filter_app, length_app. Qed.

Lemma attempt_world_trace a page w :
  trace (attempt_world a page w)
  = trace w ++ [EvSleep (spacing a w);
                EvRequest (transport_start a w) (page_request a page)].
Proof.
  unfold attempt_world, send, transport_start.
  destruct (service _ _ _) as [rep took]. cbn [snd trace sleep].
  by rewrite <- app_assoc.
Qed.

Lemma attempt_world_service a page w :
  service (attempt_world a page w) = service w.
Proof. unfold attempt_world. by rewrite send_service. Qed.

Lemma attempt_world_attempts a w t c n u :
  attempts (attempt_world a (CreatePage t c n u) w) = S (attempts w).
Proof.
  unfold attempts at 1. rewrite attempt_world_trace, attempts_app_trace.
  cbn. lia.
Qed.

Lemma page_of_eq self :
  page_of self
  = CreatePage (PyStr.take 256 (telegraph_title self))
               (telegraph_html_content self)
               (PyStr.take 128 (telegraph_author self))
               (PyStr.take 512 (telegraph_author_url self)).
Proof. reflexivity. Qed.

Lemma flood_wait_pages a ra w :
  pages (trace (flood_wait a ra w).2) = pages (trace w)
  /\ page_tokens (trace (flood_wait a ra w).2) = page_tokens (trace w)
  /\ attempts (flood_wait a ra w).2 = attempts w.
Proof.
  unfold flood_wait, create_account, send, attempts, RSStT_account.
  destruct (_fc_lock a); [done|].
  destruct (60 <=? ra)%Z.
  - destruct (service w (served w) _) as [[tok|e] took];
      (cbn [snd trace];
       rewrite pages_app, page_tokens_app, List.filter_app, length_app;
       cbn; rewrite !app_nil_r; split; [done|]; split; [done|lia]).
  - cbn [snd trace sleep].
    rewrite pages_app, page_tokens_app, List.filter_app, length_app.
    cbn. rewrite !app_nil_r. split; [done|]. split; [done|lia].
Qed.

Lemma flood_wait_at_pages i ra st :
  pages (trace (world (flood_wait_at i ra st).2)) = pages (trace (world st))
  /\ page_tokens (trace (world (flood_wait_at i ra st).2))
     = page_tokens (trace (world st))
  /\ attempts (world (flood_wait_at i ra st).2) = attempts (world st).
Proof.
  unfold flood_wait_at.
  destruct (apis st) as [pool|]; [|done].
  destruct (_accounts pool !! i) as [a|]; [|done].
  pose proof (flood_wait_pages a ra (world st)) as H.
  by destruct (flood_wait a ra (world st)) as [[r a'] w'].
Qed.

Lemma gathered_shape i ra o self st :
  exists o' st',
    gathered i ra (o, self, st) = (o', self, st')
    /\ pages (trace (world st')) = pages (trace (world st))
    /\ page_tokens (trace (world st')) = page_tokens (trace (world st))
    /\ attempts (world st') = attempts (world st)
    /\ (o = Done (Raised OverflowError) -> o' = Done (Raised OverflowError)).
Proof.
  unfold gathered. destruct o as [r| |]; try by do 2 eexists.
  pose proof (flood_wait_at_pages i ra st) as H.
  destruct (flood_wait_at i ra st) as [r' st'].
  destruct r as [url|e], r' as [u|e']; do 2 eexists;
    (split; [done|]; split; [apply H|]; split; [apply H|]; split; [apply H|];
     intros Heq; by simplify_eq).
Qed.

(** *** One round on a usable pool *)

Lemma usable_lookup pool :
  usable pool ->
  exists a, _accounts pool !! cursor pool = Some a /\ unlocked a.
Proof.
  intros [Hne Hun].
  destruct (lookup_lt_is_Some_2 (_accounts pool) (cursor pool)
              (cursor_lt pool Hne)) as [a Ha].
  exists a. split; [done|].
  by apply (Forall_lookup_1 _ _ _ _ Hun Ha).
Qed.

Lemma next_pool_eq pool :
  _accounts pool <> [] ->
  get_account pool = (Returned (cursor pool), next_pool pool)
  /\ _accounts (next_pool pool) = _accounts pool
  /\ tokens (next_pool pool) = tokens pool.
Proof.
  intros Hne. unfold next_pool. by rewrite (get_account_eq pool Hne).
Qed.

Lemma put_account_same i a pool :
  _accounts pool !! i = Some a -> put_account i a pool = pool.
Proof.
  intros H. unfold put_account. rewrite list_insert_id by done.
  by destruct pool.
Qed.

Lemma next_pool_usable pool : usable pool -> usable (next_pool pool).
Proof.
  intros [Hne Hun]. destruct (next_pool_eq pool Hne) as (_ & Hacc & _).
  unfold usable. by rewrite Hacc.
Qed.

(** The round when the transport call fails: the account is put back as
    it was, the cursor has moved on. *)
Lemma attempt_failed self pool w a e took :
  retries self < 3 ->
  _accounts pool <> [] ->
  _accounts pool !! cursor pool = Some a -> unlocked a ->
  service w (served w) (page_request a (page_of self)) = (Fail e, took) ->
  attempt self {| apis := Some pool; world := w |}
  = let st' := {| apis := Some (next_pool pool);
                  world := attempt_world a (page_of self) w |} in
    match e with
    | TelegraphError msg =>
        if PyStr.startswith "FLOOD_WAIT_" msg then
          match PyStr.int (PyStr.last_item (PyStr.split "_" msg)) with
          | None => Finished (Done (Raised ValueError)) st'
          | Some ra => RetryFlood (cursor pool) ra st'
          end
        else Finished (Done (Raised e)) st'
    | NetworkError _ => RetryNetwork st'
    | _ => Finished (Done (Raised e)) st'
    end.
Proof.
  intros Hr Hne Ha [Hfc Hrq] Hsvc.
  destruct (next_pool_eq pool Hne) as (Hget & Hacc & _).
  unfold attempt. cbn [apis world].
  destruct (Nat.leb_spec 3 (retries self)); [lia|].
  rewrite Hget, Hacc, Ha.
  rewrite create_page_free by done.
  unfold attempt_world, send. cbn zeta.
  change (service (sleep (spacing a w) w)) with (service w).
  change (served (sleep (spacing a w) w)) with (served w).
  rewrite Hsvc. cbn [snd].
  rewrite put_account_same by (by rewrite Hacc).
  destruct e; try done.
  destruct (Nat.ltb_spec (retries self) 3); [done|lia].
Qed.

Lemma attempt_succeeded self pool w a url took :
  retries self < 3 ->
  _accounts pool <> [] ->
  _accounts pool !! cursor pool = Some a -> unlocked a ->
  service w (served w) (page_request a (page_of self)) = (Ok url, took) ->
  attempt self {| apis := Some pool; world := w |}
  = Finished (Done (Returned url))
      {| apis := Some (put_account (cursor pool)
                         (set_last_run (clock (attempt_world a (page_of self) w)) a)
                         (next_pool pool));
         world := attempt_world a (page_of self) w |}.
Proof.
  intros Hr Hne Ha [Hfc Hrq] Hsvc.
  destruct (next_pool_eq pool Hne) as (Hget & Hacc & _).
  unfold attempt. cbn [apis world].
  destruct (Nat.leb_spec 3 (retries self)); [lia|].
  rewrite Hget, Hacc, Ha.
  rewrite create_page_free by done.
  unfold attempt_world, send. cbn zeta.
  change (service (sleep (spacing a w) w)) with (service w).
  change (served (sleep (spacing a w) w)) with (served w).
  by rewrite Hsvc.
Qed.

End Rounds.

(** X8. An error of the transport that is neither a flood error nor a
    network error (a timeout, another [TelegraphError], anything else) ends
    [telegraph_ify] at once: it is raised unchanged after exactly one
    transport call, [retries] and the accounts are as before, and only
    the rotation cursor has moved on. *)
Theorem telegraph_ify_propagates (fuel : nat) (self : TelegraphIfy)
        (pool : APIs) (w : World) (a : Telegraph) (e : exn) (took : Q) :
  retries self < 3 ->
  usable pool ->
  _accounts pool !! cursor pool = Some a ->
  service w (served w) (page_request a (page_of self)) = (Fail e, took) ->
  terminal e = true ->
  telegraph_ify (S fuel) self {| apis := Some pool; world := w |}
  = (Done (Raised e), self,
     {| apis := Some (next_pool pool);
        world := attempt_world a (page_of self) w |})
  /\ attempts (attempt_world a (page_of self) w) = S (attempts w)
  /\ _accounts (next_pool pool) = _accounts pool.
Proof.
  intros Hr [Hne Hun] Ha Hsvc Hterm.
  assert (Hua : unlocked a) by (by apply (Forall_lookup_1 _ _ _ _ Hun Ha)).
  rewrite telegraph_ify_round.
  rewrite (attempt_failed self pool w a e took) by done.
  split; [|split].
  - cbn zeta. destruct e; try done.
    cbn [terminal] in Hterm. by destruct (PyStr.startswith _ _).
  - apply attempt_world_attempts.
  - by destruct (next_pool_eq pool Hne) as (_ & Hacc & _).
Qed.

Lemma telegraph_ify_propagates_witness :
  retries sample_doc < 3
  /\ usable one_account_pool
  /\ (telegraph_ify 1 sample_doc
        {| apis := Some one_account_pool;
           world := world_at timeout_service 1000 |}).1
     = (Done (Raised TimeoutError), sample_doc).
Proof.
  assert (Hr : retries sample_doc < 3) by (cbn; lia).
  assert (Hu : usable one_account_pool)
    by (split; [done|]; by repeat constructor).
  split; [exact Hr|]. split; [exact Hu|].
  exact (f_equal fst (proj1 (telegraph_ify_propagates 0 sample_doc one_account_pool
           (world_at timeout_service 1000%Q) (Telegraph_init tok60)
           TimeoutError 10%Q Hr Hu eq_refl eq_refl eq_refl))).
Defined.

(** X9. When the transport call of the first round returns, [telegraph_ify]
    returns that URL after exactly one transport call; [retries] is
    unchanged, the account used has its [last_run] set to the clock
    reading after the call and is otherwise unchanged, and the other
    accounts are untouched. *)
Theorem telegraph_ify_first_success (fuel : nat) (self : TelegraphIfy)
        (pool : APIs) (w : World) (a : Telegraph) (url : string) (took : Q) :
  retries self < 3 ->
  usable pool ->
  _accounts pool !! cursor pool = Some a ->
  service w (served w) (page_request a (page_of self)) = (Ok url, took) ->
  exists st',
    telegraph_ify (S fuel) self {| apis := Some pool; world := w |}
    = (Done (Returned url), self, st')
    /\ world st' = attempt_world a (page_of self) w
    /\ attempts (world st') = S (attempts w)
    /\ exists pool',
        apis st' = Some pool'
        /\ _accounts pool' !! cursor pool
           = Some (set_last_run (clock (world st')) a)
        /\ forall j, j <> cursor pool ->
                     _accounts pool' !! j = _accounts pool !! j.
Proof.
  intros Hr [Hne Hun] Ha Hsvc.
  assert (Hua : unlocked a) by (by apply (Forall_lookup_1 _ _ _ _ Hun Ha)).
  destruct (next_pool_eq pool Hne) as (_ & Hacc & _).
  rewrite telegraph_ify_round.
  rewrite (attempt_succeeded self pool w a url took) by done.
  eexists. split; [done|]. cbn [world apis].
  split; [done|]. split; [apply attempt_world_attempts|].
  eexists. split; [done|]. cbn [put_account _accounts]. rewrite Hacc. split.
  - apply list_lookup_insert_eq. by apply (lookup_lt_Some _ _ a).
  - intros j Hj. by apply list_lookup_insert_ne.
Qed.

Lemma telegraph_ify_first_success_witness :
  retries sample_doc < 3
  /\ usable one_account_pool
  /\ exists st',
      telegraph_ify 1 sample_doc
        {| apis := Some one_account_pool; world := world_at up_service 1000 |}
      = (Done (Returned "https://telegra.ph/page"), sample_doc, st').
Proof.
  assert (Hr : retries sample_doc < 3) by (cbn; lia).
  assert (Hu : usable one_account_pool)
    by (split; [done|]; by repeat constructor).
  split; [exact Hr|]. split; [exact Hu|].
  destruct (telegraph_ify_first_success 0 sample_doc one_account_pool
              (world_at up_service 1000%Q) (Telegraph_init tok60)
              "https://telegra.ph/page" 0.1%Q Hr Hu eq_refl eq_refl)
    as (st' & H & _).
  exists st'. exact H.
Defined.

Section Invariants.

Lemma set_retries_same self : set_retries (retries self) self = self.
Proof. by destruct self. Qed.

Lemma attempt_retry_lt self st :
  (forall o st', attempt self st <> Finished o st') -> retries self < 3.
Proof.
  intros H. unfold attempt in H.
  destruct (Nat.leb_spec 3 (retries self)); [|done].
  by destruct (H _ _ eq_refl).
Qed.

Lemma take_length n s : String.length (PyStr.take n s) <= n.
Proof.
  unfold PyStr.take. revert n. induction s as [|c s IH]; intros [|n]; cbn; try lia.
  specialize (IH n). lia.
Qed.

Lemma take_short n s : String.length s <= n -> PyStr.take n s = s.
Proof.
  unfold PyStr.take. revert n. induction s as [|c s IH]; intros [|n] H; cbn in *;
    try done; try lia.
  f_equal. apply IH. lia.
Qed.

Lemma create_page_pages a w t c n u :
  exists k,
    k <= 1
    /\ pages (trace (create_page a (CreatePage t c n u) w).2)
       = pages (trace w) ++ replicate k (CreatePage t c n u).
Proof.
  unfold create_page.
  destruct (_fc_lock a);
    [exists 0; split; [lia|]; cbn [snd replicate]; by rewrite app_nil_r|].
  destruct (_request_lock a);
    [exists 0; split; [lia|]; cbn [snd replicate]; by rewrite app_nil_r|].
  exists 1. split; [lia|]. unfold send.
  destruct (service _ _ _) as [[url|e] took]; cbn [snd trace sleep];
    rewrite !pages_app; cbn [pages replicate app]; by rewrite app_nil_r.
Qed.

Lemma attempt_pages self st :
  exists k,
    k <= 1
    /\ pages (trace (world (round_state (attempt self st))))
       = pages (trace (world st)) ++ replicate k (page_of self).
Proof.
  assert (Hnone : exists k, k <= 1
            /\ pages (trace (world st))
               = pages (trace (world st)) ++ replicate k (page_of self))
    by (exists 0; split; [lia|]; cbn [replicate]; by rewrite app_nil_r).
  unfold attempt.
  destruct (3 <=? retries self); [done|].
  destruct (apis st) as [pool|]; [|done].
  destruct (get_account pool) as [[i|e] pool']; [|done].
  destruct (_accounts pool' !! i) as [a|]; [|done].
  rewrite page_of_eq.
  destruct (create_page_pages a (world st)
              (PyStr.take 256 (telegraph_title self))
              (telegraph_html_content self)
              (PyStr.take 128 (telegraph_author self))
              (PyStr.take 512 (telegraph_author_url self))) as (k & Hk & H).
  destruct (create_page a _ (world st)) as [[o a'] w']. cbn [snd] in H.
  exists k. split; [done|].
  destruct o as [[url|e]| |]; try done.
  destruct e; try done.
  - destruct (PyStr.startswith "FLOOD_WAIT_" msg); [|done].
    by destruct (PyStr.int _).
  - by destruct (retries self <? 3).
Qed.

End Invariants.

(** X10. Whatever happens, [telegraph_ify] leaves the document as it was
    except for [retries], which never goes down and, once it is at most
    3, never goes beyond 3. *)
Theorem telegraph_ify_retries (fuel : nat) (self : TelegraphIfy) (st : State) :
  exists n,
    (telegraph_ify fuel self st).1.2 = set_retries n self
    /\ retries self <= n
    /\ (retries self <= 3 -> n <= 3).
Proof.
  revert self st. induction fuel as [|fuel IH]; intros self st.
  - exists (retries self). cbn. by rewrite set_retries_same.
  - rewrite telegraph_ify_round.
    destruct (attempt self st) as [o st'|st'|i ra st'] eqn:E.
    + exists (retries self). cbn. by rewrite set_retries_same.
    + apply IH.
    + assert (Hlt : retries self < 3).
      { apply (attempt_retry_lt self st). intros o st''. by rewrite E. }
      destruct (IH (bump self) st') as (n & Hn & Hle & Hmax).
      destruct (telegraph_ify fuel (bump self) st') as [[o self'] st''].
      cbn [fst snd] in Hn. subst self'.
      destruct (gathered_shape i ra o (set_retries n (bump self)) st'')
        as (o' & st3 & -> & _).
      exists n. cbn [fst snd retries bump] in *.
      split; [done|]. split; [lia|]. intros _. apply Hmax. lia.
Qed.

(** X13. The only pages [telegraph_ify] ever sends to the service are
    copies of the page of its own document, at most one per level of the
    recursion; that page carries the HTML content as it is, and the title,
    author name and author URL cut to at most 256, 128 and 512 characters
    (unchanged when they are not longer). *)
Theorem telegraph_ify_pages (fuel : nat) (self : TelegraphIfy) (st : State) :
  (exists k,
      k <= fuel
      /\ pages (trace (world (telegraph_ify fuel self st).2))
         = pages (trace (world st)) ++ replicate k (page_of self))
  /\ (exists t a u,
        page_of self = CreatePage t (telegraph_html_content self) a u
        /\ String.length t <= 256 /\ String.length a <= 128
        /\ String.length u <= 512
        /\ (String.length (telegraph_title self) <= 256 ->
            t = telegraph_title self)
        /\ (String.length (telegraph_author self) <= 128 ->
            a = telegraph_author self)
        /\ (String.length (telegraph_author_url self) <= 512 ->
            u = telegraph_author_url self)).
Proof.
  split.
  - revert self st. induction fuel as [|fuel IH]; intros self st.
    + exists 0. split; [lia|]. cbn. by rewrite app_nil_r.
    + rewrite telegraph_ify_round.
      destruct (attempt_pages self st) as (k1 & Hk1 & H1).
      destruct (attempt self st) as [o st'|st'|i ra st']; cbn [round_state] in H1.
      * exists k1. split; [lia|done].
      * destruct (IH self st') as (k & Hk & H).
        exists (k1 + k). split; [lia|].
        by rewrite H, H1, <- app_assoc, replicate_add.
      * destruct (IH (bump self) st') as (k & Hk & H).
        destruct (telegraph_ify fuel (bump self) st') as [[o self'] st''].
        cbn [snd] in H.
        destruct (gathered_shape i ra o self' st'') as (o' & st3 & -> & Hp & _).
        exists (k1 + k). split; [lia|]. cbn [snd].
        rewrite Hp, H, H1, <- app_assoc, replicate_add. done.
  - do 3 eexists. split; [apply page_of_eq|].
    repeat split; try apply take_length; apply take_short.
Qed.

(** ** Retries *)

Section Retries.

Lemma flood_budget_spent k :
  forall self pool w fuel,
    3 - retries self = k -> retries self <= 3 -> k < fuel ->
    usable pool -> flooding (service w) ->
    exists st',
      telegraph_ify fuel self {| apis := Some pool; world := w |}
      = (Done (Raised OverflowError), set_retries 3 self, st')
      /\ attempts (world st') = attempts w + k.
Proof.
  induction k as [|k IH]; intros self pool w fuel Hk Hle Hfuel Hus Hfl;
    (destruct fuel as [|fuel]; [lia|]); rewrite telegraph_ify_round.
  - assert (Hr : retries self = 3) by lia.
    unfold attempt. rewrite Hr. cbn [Nat.leb].
    change (3 <=? 3) with true. cbn match.
    eexists. split; [by rewrite <- Hr, set_retries_same|]. cbn [world]. lia.
  - assert (Hr : retries self < 3) by lia.
    destruct (usable_lookup pool Hus) as (a & Ha & Hua).
    destruct (proj1 Hfl (served w) (page_request a (page_of self)) eq_refl)
      as (e & took & Hsvc & He).
    rewrite (attempt_failed self pool w a e took Hr (proj1 Hus) Ha Hua Hsvc).
    destruct e as [msg| | | | |]; try discriminate He.
    cbn [flood_error] in He. apply andb_prop in He as [Hpre Hint].
    cbn zeta. rewrite Hpre.
    destruct (PyStr.int _) as [ra|]; [|discriminate Hint].
    destruct (IH (bump self) (next_pool pool)
                (attempt_world a (page_of self) w) fuel)
      as (st2 & Hrec & Hatt).
    + cbn [retries bump]. lia.
    + cbn [retries bump]. lia.
    + lia.
    + by apply next_pool_usable.
    + by rewrite attempt_world_service.
    + rewrite Hrec.
      destruct (gathered_shape (cursor pool) ra (Done (Raised OverflowError))
                  (set_retries 3 (bump self)) st2)
        as (o' & st3 & -> & _ & _ & Hatt3 & Ho).
      rewrite (Ho eq_refl). exists st3. split; [done|].
      rewrite Hatt3, Hatt, page_of_eq, attempt_world_attempts. lia.
Qed.

End Retries.

(** X11. The retry budget on flood errors. On a pool with no lock held,
    when every [create_page] is answered with a flood error and every
    other request is accepted, [telegraph_ify] raises [OverflowError] with
    [retries] at 3 after exactly [3 - retries] [create_page] requests:
    three for a new document. (What is counted are the [create_page]
    requests; every [flood_wait] with [retry_after >= 60] sends a
    [create_account] request of its own. The two coroutines of [gather]
    run one after the other in the model; as no [flood_wait] fails here,
    the outcome, the count and [retries] do not depend on their order.) *)
Theorem telegraph_ify_flood_budget (fuel : nat) (self : TelegraphIfy)
        (pool : APIs) (w : World) :
  retries self <= 3 -> 3 - retries self < fuel ->
  usable pool -> flooding (service w) ->
  exists st',
    telegraph_ify fuel self {| apis := Some pool; world := w |}
    = (Done (Raised OverflowError), set_retries 3 self, st')
    /\ attempts (world st') = attempts w + (3 - retries self).
Proof.
  intros Hle Hfuel Hus Hfl.
  by apply (flood_budget_spent (3 - retries self)).
Qed.

Lemma telegraph_ify_flood_budget_witness :
  retries sample_doc <= 3 /\ 3 - retries sample_doc < 4
  /\ usable two_account_pool /\ flooding flooding_service
  /\ exists st',
      telegraph_ify 4 sample_doc
        {| apis := Some two_account_pool;
           world := world_at flooding_service 1000 |}
      = (Done (Raised OverflowError), set_retries 3 sample_doc, st')
      /\ attempts (world st') = 3.
Proof.
  assert (Hr : retries sample_doc <= 3) by (cbn; lia).
  assert (Hf : 3 - retries sample_doc < 4) by (cbn; lia).
  assert (Hu : usable two_account_pool)
    by (split; [done|]; by repeat constructor).
  assert (Hfl : flooding flooding_service).
  { split; intros n [tok [t c a u| |]] H; try discriminate H.
    - exists (TelegraphError "FLOOD_WAIT_5"), 0.1%Q. by split.
    - by exists tok60, 0.1%Q.
    - by exists tok60, 0.1%Q. }
  split; [exact Hr|]. split; [exact Hf|]. split; [exact Hu|].
  split; [exact Hfl|].
  exact (telegraph_ify_flood_budget 4 sample_doc two_account_pool
           (world_at flooding_service 1000%Q) Hr Hf Hu Hfl).
Defined.

Section Rotation.

Lemma attempt_world_page_tokens a w t c n u :
  page_tokens (trace (attempt_world a (CreatePage t c n u) w))
  = page_tokens (trace w) ++ [token a].
Proof. rewrite attempt_world_trace, page_tokens_app. done. Qed.

Lemma network_retries_rotate fuel :
  forall self pool w,
    retries self < 3 -> usable pool -> unreachable (service w) ->
    exists w',
      telegraph_ify fuel self {| apis := Some pool; world := w |}
      = (OutOfFuel, self, {| apis := Some (rotate fuel pool); world := w' |})
      /\ page_tokens (trace w')
         = page_tokens (trace w) ++ map (token_at pool) (get_accounts fuel pool)
      /\ attempts w' = attempts w + fuel.
Proof.
  induction fuel as [|fuel IH]; intros self pool w Hr Hus Hdown.
  - exists w. cbn [telegraph_ify rotate get_accounts map].
    rewrite app_nil_r. split; [done|]. split; [done|lia].
  - rewrite telegraph_ify_round.
    destruct (usable_lookup pool Hus) as (a & Ha & Hua).
    destruct (Hdown (served w) (page_request a (page_of self)) eq_refl)
      as (cls & took & Hsvc).
    rewrite (attempt_failed self pool w a _ took Hr (proj1 Hus) Ha Hua Hsvc).
    cbn zeta.
    destruct (next_pool_eq pool (proj1 Hus)) as (Hget & Hacc & _).
    destruct (IH self (next_pool pool) (attempt_world a (page_of self) w))
      as (w' & -> & Htok & Hatt); [done|by apply next_pool_usable| |].
    { by rewrite attempt_world_service. }
    exists w'. split; [done|]. split.
    + rewrite Htok, page_of_eq, attempt_world_page_tokens, <- app_assoc.
      f_equal. cbn [get_accounts]. rewrite Hget. cbn [map app].
      f_equal.
      * unfold token_at. by rewrite Ha.
      * apply map_ext. intros i. unfold token_at. by rewrite Hacc.
    + rewrite Hatt, page_of_eq, attempt_world_attempts. lia.
Qed.

End Rotation.

(** X12. Retries after network errors walk the pool in rotation. On a
    pool with no lock held, while every [create_page] is answered with a
    network error, the call recurses as deep as it is allowed to, and its
    transport calls use, one after the other, the credentials of the
    accounts that successive [get_account] calls return; the accounts
    themselves stay as they are. *)
Theorem telegraph_ify_network_rotation (fuel : nat) (self : TelegraphIfy)
        (pool : APIs) (w : World) :
  retries self < 3 -> usable pool -> unreachable (service w) ->
  exists w',
    telegraph_ify fuel self {| apis := Some pool; world := w |}
    = (OutOfFuel, self, {| apis := Some (rotate fuel pool); world := w' |})
    /\ page_tokens (trace w')
       = page_tokens (trace w) ++ map (token_at pool) (get_accounts fuel pool)
    /\ attempts w' = attempts w + fuel.
Proof. apply network_retries_rotate. Qed.

Lemma telegraph_ify_network_rotation_witness :
  retries sample_doc < 3 /\ usable two_account_pool /\ unreachable down_service
  /\ exists w',
      (telegraph_ify 3 sample_doc
         {| apis := Some two_account_pool; world := world_at down_service 1000 |}).1
      = (OutOfFuel, sample_doc)
      /\ page_tokens (trace w') = ["first"; "second"; "first"].
Proof.
  assert (Hr : retries sample_doc < 3) by (cbn; lia).
  assert (Hu : usable two_account_pool)
    by (split; [done|]; by repeat constructor).
  assert (Hd : unreachable down_service).
  { intros n r _. by exists "ClientConnectionError", 0.1%Q. }
  split; [exact Hr|]. split; [exact Hu|]. split; [exact Hd|].
  destruct (telegraph_ify_network_rotation 3 sample_doc two_account_pool
              (world_at down_service 1000%Q) Hr Hu Hd) as (w' & H & Htok & _).
  exists w'. split; [by rewrite H|]. exact Htok.
Defined.

Section FloodRetry.

Lemma flood_wait_at_short i ra st :
  (ra < 60)%Z -> (flood_wait_at i ra st).1 = Returned tt.
Proof.
  intros Hra. unfold flood_wait_at, flood_wait.
  destruct (apis st) as [pool|]; [|done].
  destruct (_accounts pool !! i) as [a|]; [|done].
  destruct (_fc_lock a); [done|].
  destruct (Z.leb_spec 60 ra); [lia|done].
Qed.

Lemma flood_wait_at_short_served i ra st :
  (ra < 60)%Z ->
  served (world (flood_wait_at i ra st).2) = served (world st).
Proof.
  intros Hra. unfold flood_wait_at, flood_wait.
  destruct (apis st) as [pool|]; [|done].
  destruct (_accounts pool !! i) as [a|]; [|done].
  destruct (_fc_lock a); [done|].
  destruct (Z.leb_spec 60 ra); [lia|done].
Qed.

Lemma attempt_world_served a page w :
  served (attempt_world a page w) = S (served w).
Proof.
  unfold attempt_world, send.
  by destruct (service (sleep (spacing a w) w) _ _).
Qed.

End FloodRetry.

(** X14. A flood error whose number of seconds cannot be read (the part
    after the last underscore is not an integer) makes [telegraph_ify]
    raise [ValueError] after that one transport call: [retries] is not
    incremented, nothing is retried and no [flood_wait] is started. *)
Theorem telegraph_ify_unreadable_flood (fuel : nat) (self : TelegraphIfy)
        (pool : APIs) (w : World) (a : Telegraph) (msg : string) (took : Q) :
  retries self < 3 ->
  usable pool ->
  _accounts pool !! cursor pool = Some a ->
  service w (served w) (page_request a (page_of self))
  = (Fail (TelegraphError msg), took) ->
  PyStr.startswith "FLOOD_WAIT_" msg = true ->
  PyStr.int (PyStr.last_item (PyStr.split "_" msg)) = None ->
  telegraph_ify (S fuel) self {| apis := Some pool; world := w |}
  = (Done (Raised ValueError), self,
     {| apis := Some (next_pool pool);
        world := attempt_world a (page_of self) w |})
  /\ trace (attempt_world a (page_of self) w)
     = trace w ++ [EvSleep (spacing a w);
                   EvRequest (transport_start a w)
                             (page_request a (page_of self))].
Proof.
  intros Hr [Hne Hun] Ha Hsvc Hpre Hint.
  assert (Hua : unlocked a) by (by apply (Forall_lookup_1 _ _ _ _ Hun Ha)).
  rewrite telegraph_ify_round.
  rewrite (attempt_failed self pool w a (TelegraphError msg) took) by done.
  cbv beta iota zeta. rewrite Hpre, Hint.
  split; [done|apply attempt_world_trace].
Qed.

Lemma telegraph_ify_unreadable_flood_witness :
  retries sample_doc < 3 /\ usable one_account_pool
  /\ PyStr.startswith "FLOOD_WAIT_" "FLOOD_WAIT_X" = true
  /\ PyStr.int (PyStr.last_item (PyStr.split "_" "FLOOD_WAIT_X")) = None
  /\ (telegraph_ify 1 sample_doc
        {| apis := Some one_account_pool;
           world := world_at (fun _ _ => (Fail (TelegraphError "FLOOD_WAIT_X"),
                                          0.1%Q)) 1000 |}).1
     = (Done (Raised ValueError), sample_doc).
Proof.
  assert (Hr : retries sample_doc < 3) by (cbn; lia).
  assert (Hu : usable one_account_pool)
    by (split; [done|]; by repeat constructor).
  split; [exact Hr|]. split; [exact Hu|].
  split; [reflexivity|]. split; [reflexivity|].
  exact (f_equal fst (proj1 (telegraph_ify_unreadable_flood 0 sample_doc
           one_account_pool
           (world_at (fun _ _ => (Fail (TelegraphError "FLOOD_WAIT_X"), 0.1%Q))
                     1000%Q)
           (Telegraph_init tok60) "FLOOD_WAIT_X" 0.1%Q
           Hr Hu eq_refl eq_refl eq_refl eq_refl))).
Defined.

(** X15. One flood event costs one retry. When the first [create_page] is
    answered with a flood error of less than 60 seconds and the next one,
    on the account next in rotation, returns, [telegraph_ify] returns that
    URL with [retries] incremented by exactly one, after exactly two
    requests to the service, both of them [create_page] requests. *)
Theorem telegraph_ify_flood_then_success (fuel : nat) (self : TelegraphIfy)
        (pool : APIs) (w : World) (a b : Telegraph) (msg url : string)
        (ra : Z) (took took' : Q) :
  retries self < 2 ->
  usable pool ->
  _accounts pool !! cursor pool = Some a ->
  _accounts pool !! cursor (next_pool pool) = Some b ->
  service w (served w) (page_request a (page_of self))
  = (Fail (TelegraphError msg), took) ->
  PyStr.startswith "FLOOD_WAIT_" msg = true ->
  PyStr.int (PyStr.last_item (PyStr.split "_" msg)) = Some ra ->
  (ra < 60)%Z ->
  service w (S (served w)) (page_request b (page_of self)) = (Ok url, took') ->
  exists st',
    telegraph_ify (S (S fuel)) self {| apis := Some pool; world := w |}
    = (Done (Returned url), bump self, st')
    /\ attempts (world st') = attempts w + 2
    /\ served (world st') = served w + 2.
Proof.
  intros Hr Hus Ha Hb Hsvc Hpre Hint Hra Hsvc'.
  destruct Hus as [Hne Hun].
  assert (Hua : unlocked a) by (by apply (Forall_lookup_1 _ _ _ _ Hun Ha)).
  assert (Hub : unlocked b) by (by apply (Forall_lookup_1 _ _ _ _ Hun Hb)).
  destruct (next_pool_eq pool Hne) as (_ & Hacc & _).
  rewrite telegraph_ify_round.
  rewrite (attempt_failed self pool w a (TelegraphError msg) took)
    by (done || lia).
  cbv beta iota zeta. rewrite Hpre, Hint.
  rewrite telegraph_ify_round.
  set (w1 := attempt_world a (page_of self) w).
  assert (Hsvc1 : service w1 (served w1)
                    (page_request b (page_of (bump self))) = (Ok url, took')).
  { unfold w1. rewrite attempt_world_service.
    unfold attempt_world, send.
    destruct (service (sleep (spacing a w) w) _ _) as [rep t0].
    exact Hsvc'. }
  assert (Hr1 : retries (bump self) < 3) by (cbn; lia).
  assert (Hne1 : _accounts (next_pool pool) <> []) by (by rewrite Hacc).
  assert (Hb1 : _accounts (next_pool pool) !! cursor (next_pool pool) = Some b)
    by (by rewrite Hacc).
  rewrite (attempt_succeeded (bump self) (next_pool pool) w1 b url took'
             Hr1 Hne1 Hb1 Hub Hsvc1).
  unfold gathered.
  match goal with
  | |- context [flood_wait_at ?i ra ?st] =>
      pose proof (flood_wait_at_short i ra st Hra) as Hshort;
      pose proof (flood_wait_at_short_served i ra st Hra) as Hserved;
      pose proof (flood_wait_at_pages i ra st) as (_ & _ & Hatt);
      destruct (flood_wait_at i ra st) as [r' st3]
  end.
  cbn [fst] in Hshort. subst r'. cbn [snd world] in Hatt, Hserved.
  exists st3. split; [done|]. split.
  - rewrite Hatt. unfold w1.
    rewrite (page_of_eq (bump self)), (page_of_eq self),
      !attempt_world_attempts. lia.
  - rewrite Hserved. unfold w1. rewrite !attempt_world_served. lia.
Qed.

Lemma telegraph_ify_flood_then_success_witness :
  retries sample_doc < 2 /\ usable two_account_pool
  /\ exists st',
      telegraph_ify 2 sample_doc
        {| apis := Some two_account_pool;
           world := world_at flood_once_service 1000 |}
      = (Done (Returned "https://telegra.ph/page"), bump sample_doc, st')
      /\ attempts (world st') = 2
      /\ served (world st') = 2.
Proof.
  assert (Hr : retries sample_doc < 2) by (cbn; lia).
  assert (Hu : usable two_account_pool)
    by (split; [done|]; by repeat constructor).
  split; [exact Hr|]. split; [exact Hu|].
  apply (telegraph_ify_flood_then_success 0 sample_doc two_account_pool
           (world_at flood_once_service 1000%Q)
           (Telegraph_init "first") (Telegraph_init "second")
           "FLOOD_WAIT_5" "https://telegra.ph/page" 5 0.1%Q 0.1%Q
           Hr Hu eq_refl eq_refl eq_refl eq_refl eq_refl eq_refl eq_refl).
Defined.

Section Accepting.

Lemma create_account_accepting a w :
  accepting (service w) ->
  exists issued w',
    create_account a w = (Returned tt, set_token issued a, w')
    /\ service w' = service w.
Proof.
  intros Hacc. unfold create_account, send.
  destruct (Hacc (served w)
              {| req_token := token a; req_method := RSStT_account |})
    as (p & took & Heq).
  rewrite Heq. by do 2 eexists.
Qed.

Lemma get_account_info_accepting a w :
  accepting (service w) ->
  exists w', get_account_info a w = (Returned tt, w') /\ service w' = service w.
Proof.
  intros Hacc. unfold get_account_info, send.
  destruct (Hacc (served w)
              {| req_token := token a; req_method := GetAccountInfo |})
    as (p & took & Heq).
  rewrite Heq. by eexists.
Qed.

Lemma init_one_accepting tok accounts w :
  accepting (service w) ->
  exists a w',
    init_one tok accounts w = (accounts ++ [a], w')
    /\ service w' = service w
    /\ set_up_for tok a.
Proof.
  intros Hacc. unfold init_one, validate, set_up_for.
  set (a := Telegraph_init (PyStr.strip tok)). set (w0 := replace_session a w).
  assert (Hacc0 : accepting (service w0)) by exact Hacc.
  destruct (Nat.eqb_spec (String.length (PyStr.strip tok)) 60) as [Hlen|Hlen];
    cbn [negb].
  - destruct (get_account_info_accepting a w0 Hacc0) as (w1 & -> & Hsvc).
    exists a, w1. by repeat split.
  - destruct (create_account_accepting a w0 Hacc0) as (p & w1 & -> & Hsvc).
    destruct (get_account_info_accepting (set_token p a) w1) as (w2 & -> & Hsvc2).
    { by rewrite Hsvc. }
    exists (set_token p a), w2. repeat split; try done.
    by rewrite Hsvc2, Hsvc.
Qed.

Lemma init_accepting toks accounts w :
  accepting (service w) ->
  exists added,
    (init toks accounts w).1 = accounts ++ added
    /\ Forall2 set_up_for toks added.
Proof.
  revert accounts w. induction toks as [|tok toks IH]; intros accounts w Hacc.
  - exists []. cbn [init fst]. rewrite app_nil_r. by split; [|constructor].
  - cbn [init].
    destruct (init_one_accepting tok accounts w Hacc) as (a & w1 & -> & Hsvc & Ha).
    destruct (IH (accounts ++ [a]) w1) as (added & -> & Hadd).
    { by rewrite Hsvc. }
    exists (a :: added). rewrite <- app_assoc. split; [done|].
    by constructor.
Qed.

End Accepting.

(** X16. When the service accepts every request, [APIs.__init__] sets up
    exactly one account per configured credential, in the configured
    order: the pool has as many accounts as credentials, each account is as
    the constructor left it, and a credential that is 60 characters long
    after stripping is kept unchanged. *)
Theorem APIs_init_accepting (toks : list string) (w : World) :
  accepting (service w) ->
  Forall2 set_up_for toks (_accounts (APIs_init toks w).1)
  /\ count (APIs_init toks w).1 = length toks.
Proof.
  intros Hacc. unfold APIs_init, count.
  destruct (init_accepting toks [] w Hacc) as (added & Hinit & Hall).
  destruct (init toks [] w) as [accounts w']. cbn [fst app] in Hinit.
  subst accounts. cbn [fst _accounts]. split; [done|].
  symmetry. by apply (Forall2_length _ _ _ Hall).
Qed.

Lemma APIs_init_accepting_witness :
  accepting up_service
  /\ count (APIs_init [" " +:+ tok60; "short"] (world_at up_service 1000)).1 = 2.
Proof.
  assert (Hup : accepting up_service).
  { intros n r. unfold up_service. destruct (req_method r); by do 2 eexists. }
  split; [exact Hup|].
  exact (proj2 (APIs_init_accepting [" " +:+ tok60; "short"]
                  (world_at up_service 1000%Q) Hup)).
Defined.

Section Metadata.

Lemma take_nonempty n s : s <> "" -> PyStr.take (S n) s <> "".
Proof. by destruct s. Qed.

Lemma or_default_nonempty o d : d <> "" -> or_default o d <> "".
Proof.
  intros Hd. destruct o as [s|]; [|done]. cbn [or_default PyStr.truthy].
  by destruct s.
Qed.

End Metadata.

(** X17. A document that [TelegraphIfy.__init__] builds always has a title
    and an author name: whatever title, feed title and author are passed
    (missing or empty ones included), the title and the author name that
    [telegraph_ify] sends, after truncation to 256 and 128 characters, are
    not empty, and [retries] starts at 0. *)
Theorem constructed_page_is_titled
        (str_soup : soup -> string) (pool : APIs) (xml : soup)
        (title link feed_title author : option string) :
  exists doc,
    TelegraphIfy_init str_soup (Some pool) xml title link feed_title author
    = Returned doc
    /\ retries doc = 0
    /\ PyStr.take 256 (telegraph_title doc) <> ""
    /\ PyStr.take 128 (telegraph_author doc) <> "".
Proof.
  unfold TelegraphIfy_init.
  assert (Hauthor :
    (match feed_title with
     | Some ft =>
         if PyStr.truthy feed_title then
           (match author with
            | Some au =>
                if PyStr.truthy author && negb (PyStr.contains au ft)
                then ft +:+ " (" +:+ au +:+ ")" else ft
            | None => ft
            end,
            or_default link "")
         else ("Generated by RSStT",
               "https://github.com/Rongronggg9/RSS-to-Telegram-Bot")
     | None => ("Generated by RSStT",
                "https://github.com/Rongronggg9/RSS-to-Telegram-Bot")
     end).1 <> "").
  { destruct feed_title as [ft|]; [|done].
    cbn [PyStr.truthy]. destruct ft as [|c ft]; [done|].
    cbn [String.eqb negb fst].
    destruct author as [au|]; [|done].
    destruct (_ && _); [|done]. by rewrite append_cons. }
  destruct (match feed_title with Some _ => _ | None => _ end)
    as [t_author t_author_url].
  eexists. split; [reflexivity|]. cbn [retries telegraph_title telegraph_author].
  split; [done|]. split.
  - by apply take_nonempty, or_default_nonempty.
  - by apply take_nonempty.
Qed.
